(** * ht04.py: asynchronous sorting of files by extension

    A shallow embedding of [src/ht04.py] and the properties of its
    extension classifier, destination namer, retry/backoff engine,
    exclusion filter, orchestrator and permit scheduler.

    Conventions.
    - A Python [str] is a [string] of 8-bit characters; [str.lower] is
      modelled on the ASCII letters (other characters are left as they are).
    - A Python [int] is a [Z] (a loop index that starts at 1 is a [nat]),
      a Python [float] is a primitive binary64 [float].
    - A [pathlib.Path] is its root and the list of its components, in the
      POSIX flavour; [name], [suffix] and [stem] are those of CPython 3.9
      to 3.13.
    - The file system, the copy primitive and the clock are a [World]
      that is passed along: its entries, what the environment answers to
      each operation that can fail, and the trace of what was done.
    - A [while True] loop takes fuel; the theorems give the fuel that is
      enough for it to return.
    - A computation that awaits can stay suspended for ever, on a permit
      that is never released or in a wait of [+infinity]: it is then
      [Blocked], with the world it stays in.
    - [logging] calls never change control flow and are left out.

    The definitions come first, the facts after them. *)

From Stdlib Require Import Bool Arith ZArith Lia List Ascii String Floats.
From Stdlib Require Import DecimalString DecimalNat Relations Permutation.
Import ListNotations.

Open Scope string_scope.
Open Scope list_scope.

(** ** Python strings *)

Module Str.

Definition lower_ascii (c : ascii) : ascii :=
  let n := nat_of_ascii c in
  if (65 <=? n)%nat && (n <=? 90)%nat then ascii_of_nat (n + 32) else c.

(** [s.lower()], for a string of ASCII characters; a character outside
    ASCII is left as it is, which is not what Python does to a letter. *)
Fixpoint lower (s : string) : string :=
  match s with
  | EmptyString => EmptyString
  | String c s' => String (lower_ascii c) (lower s')
  end.

(** [s.lstrip(c)] for a one-character argument *)
Fixpoint lstrip (c : ascii) (s : string) : string :=
  match s with
  | EmptyString => EmptyString
  | String a s' => if Ascii.eqb a c then lstrip c s' else s
  end.

(** [s.rfind(c)] counted from position [pos] of the whole string:
    the highest index of [c], or [-1]. *)
Fixpoint rfind_from (c : ascii) (s : string) (pos : Z) : Z :=
  match s with
  | EmptyString => (-1)%Z
  | String a s' =>
      let r := rfind_from c s' (pos + 1) in
      if (0 <=? r)%Z then r else if Ascii.eqb a c then pos else (-1)%Z
  end.

Definition rfind (c : ascii) (s : string) : Z := rfind_from c s 0.

Definition len (s : string) : Z := Z.of_nat (String.length s).

(** [s[i:]] and [s[:i]] for [0 <= i] *)
Definition slice_from (s : string) (i : Z) : string :=
  substring (Z.to_nat i) (String.length s - Z.to_nat i) s.

Definition slice_to (s : string) (i : Z) : string :=
  substring 0 (Z.to_nat i) s.

(** [needle in hay] *)
Fixpoint contains (needle hay : string) : bool :=
  if prefix needle hay then true
  else match hay with
       | EmptyString => false
       | String _ hay' => contains needle hay'
       end.

(** [s.replace(a, b)] for one-character arguments *)
Fixpoint replace (a b : ascii) (s : string) : string :=
  match s with
  | EmptyString => EmptyString
  | String c s' => String (if Ascii.eqb c a then b else c) (replace a b s')
  end.

(** [s.split(sep)] for a one-character separator *)
Fixpoint split_aux (sep : ascii) (s : string) (cur : string) : list string :=
  match s with
  | EmptyString => [cur]
  | String c s' =>
      if Ascii.eqb c sep then cur :: split_aux sep s' EmptyString
      else split_aux sep s' (cur ++ String c EmptyString)
  end.

Definition split (sep : ascii) (s : string) : list string :=
  split_aux sep s EmptyString.

(** [sep.join(l)] *)
Fixpoint join (sep : string) (l : list string) : string :=
  match l with
  | [] => EmptyString
  | [x] => x
  | x :: l' => x ++ sep ++ join sep l'
  end.

(** [str(i)] for [0 <= i] *)
Definition of_nat (i : nat) : string :=
  NilZero.string_of_uint (Nat.to_uint i).

(** [s.isascii()] *)
Fixpoint is_ascii (s : string) : bool :=
  match s with
  | EmptyString => true
  | String a s' => (nat_of_ascii a <? 128)%nat && is_ascii s'
  end.

(** a string without the character [c] *)
Fixpoint lacks (c : ascii) (s : string) : bool :=
  match s with
  | EmptyString => true
  | String a s' => negb (Ascii.eqb a c) && lacks c s'
  end.

End Str.

(** ** pathlib *)

(** A path: its root ([""] when relative, ["/"] when absolute) and its
    components ([PurePath._tail]). *)
Record Path : Type := mkPath { root : string; tail : list string }.

(** [Path(s)], POSIX flavour: empty and ["."] components are dropped. *)
Definition keep_part (x : string) : bool :=
  negb (String.eqb x "") && negb (String.eqb x ".").

Definition parse_root (s : string) : string :=
  match s with
  | String "/" (String "/" (String "/" _)) => "/"
  | String "/" (String "/" _) => "//"
  | String "/" _ => "/"
  | _ => ""
  end.

Definition Path_of_string (s : string) : Path :=
  mkPath (parse_root s) (filter keep_part (Str.split "/" s)).

(** [str(p)] *)
Definition Path_str (p : Path) : string :=
  match root p, tail p with
  | "", [] => "."
  | r, t => r ++ Str.join "/" t
  end.

(** [p.name] *)
Definition name (p : Path) : string := last (tail p) "".

(** [p.suffix] *)
Definition suffix (p : Path) : string :=
  let name := name p in
  let i := Str.rfind "." name in
  if (0 <? i)%Z && (i <? Str.len name - 1)%Z then Str.slice_from name i
  else "".

(** [p.stem] *)
Definition stem (p : Path) : string :=
  let name := name p in
  let i := Str.rfind "." name in
  if (0 <? i)%Z && (i <? Str.len name - 1)%Z then Str.slice_to name i
  else name.

(** [p / s]: the components of [s] are appended, unless [s] is absolute. *)
Definition joinpath (p : Path) (s : string) : Path :=
  let q := Path_of_string s in
  if String.eqb (root q) "" then mkPath (root p) (tail p ++ tail q) else q.

Definition Path_eqb (p q : Path) : bool :=
  String.eqb (root p) (root q) &&
  (if list_eq_dec string_dec (tail p) (tail q) then true else false).

(** ** Exceptions and results *)

Inductive exn_class : Type :=
  | PermissionError | FileNotFoundError | FileExistsError | ValueError | OSError | RuntimeError.

(** An exception: its class and [str(exc)]. *)
Record exn : Type := mkExn { exn_cls : exn_class; exn_msg : string }.

Inductive result (A : Type) : Type :=
  | Ok (a : A)
  | Raise (e : exn).
Arguments Ok {A} a.
Arguments Raise {A} e.

Definition isinstance_PermissionError (exc : exn) : bool :=
  match exn_cls exc with PermissionError => true | _ => false end.

(** ** The file system and its environment *)

Inductive kind : Type := File | Dir.

(** The entries of the file system, in the order a traversal lists them. *)
Definition FS : Type := list (Path * kind).

Fixpoint lookup (fs : FS) (p : Path) : option kind :=
  match fs with
  | [] => None
  | (q, k) :: fs' => if Path_eqb q p then Some k else lookup fs' p
  end.

(** [p.exists()], [p.is_dir()], [p.is_file()] *)
Definition exists_ (fs : FS) (p : Path) : bool :=
  match lookup fs p with Some _ => true | None => false end.

Definition is_dir (fs : FS) (p : Path) : bool :=
  match lookup fs p with Some Dir => true | _ => false end.

Definition is_file (fs : FS) (p : Path) : bool :=
  match lookup fs p with Some File => true | _ => false end.

Fixpoint is_prefix (l m : list string) : bool :=
  match l, m with
  | [], _ => true
  | x :: l', y :: m' => String.eqb x y && is_prefix l' m'
  | _ :: _, [] => false
  end.

(** [q] lies strictly below [p] *)
Definition below (p q : Path) : bool :=
  String.eqb (root p) (root q) && is_prefix (tail p) (tail q)
  && (List.length (tail p) <? List.length (tail q))%nat.

(** [root.rglob("*")]: every entry below [root]. *)
Definition rglob (fs : FS) (root : Path) : list Path :=
  filter (below root) (map fst fs).

(** [p.relative_to(other)] *)
Definition relative_to (p other : Path) : result Path :=
  if String.eqb (root p) (root other) && is_prefix (tail other) (tail p)
  then Ok (mkPath "" (skipn (List.length (tail other)) (tail p)))
  else Raise (mkExn ValueError (Path_str p)).

Definition add_entry (p : Path) (k : kind) (fs : FS) : FS :=
  if exists_ fs p then fs else fs ++ [(p, k)].

(** the directories [mkdir(parents=True)] makes for a path with these
    components: every non-empty prefix, the shortest first *)
Fixpoint prefixes (done todo : list string) : list (list string) :=
  match todo with
  | [] => []
  | x :: todo' => (done ++ [x]) :: prefixes (done ++ [x]) todo'
  end.

Definition add_dirs (p : Path) (fs : FS) : FS :=
  fold_left (fun fs t => add_entry (mkPath (root p) t) Dir fs)
            (prefixes [] (tail p)) fs.

(** What a run does to the outside, in order. *)
Inductive event : Type :=
  | EvMkdir (p : Path)
  | EvCopy (src dst : Path)
  | EvSleep (d : float).

(** The world a run acts on. [faults k] is what the environment answers
    to the [k]-th operation that can fail ([mkdir], the file tests of
    the discovery, the existence probes of the namer, [copy2]):
    [Some exc] raises [exc], [None] lets it succeed. Quantifying over [faults] covers every behaviour of the
    file system and of the copy primitive. *)
Record World : Type := mkWorld {
  fs : FS;
  faults : nat -> option exn;
  clock : nat;
  trace : list event
}.

Definition emit (ev : event) (w : World) : World :=
  mkWorld (fs w) (faults w) (clock w) (trace w ++ [ev]).

Definition tick (w : World) : World :=
  mkWorld (fs w) (faults w) (S (clock w)) (trace w).

Definition set_fs (fs' : FS) (w : World) : World :=
  mkWorld fs' (faults w) (clock w) (trace w).

(** [await _mkdir_async(path)]: [path.mkdir(parents=True, exist_ok=True)] *)
Definition _mkdir_async (path : Path) (w : World) : result unit * World :=
  let w1 := tick (emit (EvMkdir path) w) in
  match faults w (clock w) with
  | Some exc => (Raise exc, w1)
  | None => (Ok tt, set_fs (add_dirs path (fs w)) w1)
  end.

(** [await aioshutil.copy2(src, dst)]: the opaque copy primitive. A
    copy that raises is taken to leave nothing behind ([shutil.copy2] can
    leave a part of the destination); what is stated below of attempts,
    waits, outcomes, counts and folders does not depend on it. *)
Definition copy2 (src dst : Path) (w : World) : result unit * World :=
  let w1 := tick (emit (EvCopy src dst) w) in
  match faults w (clock w) with
  | Some exc => (Raise exc, w1)
  | None => (Ok tt, set_fs (add_entry dst File (fs w)) w1)
  end.

(** What a computation that may never return gives back. *)
Inductive run (A : Type) : Type :=
  | Done (a : A)
  | Blocked (w : World)
      (* suspended for ever, in the world [w]: on a permit that is never
         released, or in a wait without end *)
  | OutOfFuel.  (* the loop outlived the fuel *)
Arguments Done {A} a.
Arguments Blocked {A} w.
Arguments OutOfFuel {A}.

(** [await asyncio.sleep(backoff)]: a wait of [+infinity] never ends.
    (A delay that is not positive gives the turn away once and returns;
    NaN never gets here: [max(0.0, delay)] is not NaN and doubling keeps
    that.) *)
Definition sleep (backoff : float) (w : World) : run World :=
  let w1 := emit (EvSleep backoff) w in
  if PrimFloat.eqb backoff infinity then Blocked w1 else Done w1.

(** [p.is_file()] as [iter_files_recursive] calls it: the [stat] behind
    it can be refused, and then it raises. *)
Definition Path_is_file (p : Path) (w : World) : result bool * World :=
  let w1 := tick w in
  match faults w (clock w) with
  | Some exc => (Raise exc, w1)
  | None => (Ok (is_file (fs w) p), w1)
  end.

(** the copy attempts and the waits of a trace *)
Fixpoint copies (tr : list event) : nat :=
  match tr with
  | [] => 0
  | EvCopy _ _ :: tr' => S (copies tr')
  | _ :: tr' => copies tr'
  end.

Fixpoint waits (tr : list event) : list float :=
  match tr with
  | [] => []
  | EvSleep d :: tr' => d :: waits tr'
  | _ :: tr' => waits tr'
  end.

Fixpoint copy_sources (tr : list event) : list Path :=
  match tr with
  | [] => []
  | EvCopy src _ :: tr' => src :: copy_sources tr'
  | _ :: tr' => copy_sources tr'
  end.

(** ** Helpers of ht04.py *)

(** [ext_folder_name]: the folder a file is sorted into. *)
Definition ext_folder_name (path : Path) : string :=
  let ext := Str.lstrip "." (Str.lower (suffix path)) in
  if String.eqb ext "" then "no_extension" else ext.

(** [f"{stem} ({i}){suffix}"] *)
Definition numbered (stem : string) (i : nat) (suffix : string) : string :=
  (stem ++ " (" ++ Str.of_nat i ++ ")" ++ suffix)%string.

(** The [while True] loop of [_unique_target_path], from index [i]. *)
Fixpoint unique_probe (fuel : nat) (fs : FS) (dst_dir : Path)
    (stem suffix : string) (i : nat) : option Path :=
  match fuel with
  | O => None
  | S fuel' =>
      let candidate := joinpath dst_dir (numbered stem i suffix) in
      if negb (exists_ fs candidate) then Some candidate
      else unique_probe fuel' fs dst_dir stem suffix (i + 1)
  end.

(** [_unique_target_path]; [None] when the loop outlives [fuel]. *)
Definition _unique_target_path (fuel : nat) (fs : FS) (dst_dir : Path)
    (filename : string) : option Path :=
  let candidate := joinpath dst_dir filename in
  if negb (exists_ fs candidate) then Some candidate
  else
    let stem := stem (Path_of_string filename) in
    let suffix := suffix (Path_of_string filename) in
    unique_probe fuel fs dst_dir stem suffix 1.

(** [_is_locked_error] *)
Definition _is_locked_error (exc : exn) : bool :=
  let msg := exn_msg exc in
  isinstance_PermissionError exc
  && (Str.contains "WinError 32" msg
      || Str.contains "process cannot access" (Str.lower msg)).

(** ** Core operations *)

(** [max(a, b)] of Python: [b] when [b > a], else [a]. *)
Definition py_max (a b : float) : float :=
  if PrimFloat.ltb a b then b else a.

(** The return values of [copy_with_retries] and [copy_file]. *)
Definition outcome : Type := (bool * option string)%type.

(** The [while True] loop of [copy_with_retries]. *)
Fixpoint copy_with_retries_loop (fuel : nat) (src dst : Path) (retries : Z)
    (skip_locked : bool) (attempt : Z) (backoff : float) (w : World)
    : run (outcome * World) :=
  match fuel with
  | O => OutOfFuel
  | S fuel' =>
      match copy2 src dst w with
      | (Ok _, w1) => Done ((true, None), w1)
      | (Raise exc, w1) =>
          let locked := _is_locked_error exc in
          let attempt := (attempt + 1)%Z in
          if locked && skip_locked then Done ((false, Some "locked"), w1)
          else if (attempt >? retries)%Z then Done ((false, Some "error"), w1)
          else
            match sleep backoff w1 with
            | Done w2 =>
                copy_with_retries_loop fuel' src dst retries skip_locked
                  attempt (backoff * 2)%float w2
            | Blocked w2 => Blocked w2
            | OutOfFuel => OutOfFuel
            end
      end
  end.

Definition copy_with_retries (fuel : nat) (src dst : Path) (retries : Z)
    (delay : float) (skip_locked : bool) (w : World) : run (outcome * World) :=
  let attempt := 0%Z in
  let backoff := py_max 0%float delay in
  copy_with_retries_loop fuel src dst retries skip_locked attempt backoff w.

(** [await asyncio.to_thread(_unique_target_path, dst_dir, filename)]:
    the probes run against the file system of the moment, with as much
    fuel as it has entries, plus one. *)
Definition to_thread_unique_target_path (dst_dir : Path) (filename : string)
    (w : World) : run (result Path * World) :=
  let w1 := tick w in
  match faults w (clock w) with
  | Some exc => Done (Raise exc, w1)
  | None =>
      match _unique_target_path (S (List.length (fs w))) (fs w) dst_dir filename with
      | Some target => Done (Ok target, w1)
      | None => OutOfFuel
      end
  end.

(** [copy_file], run to its end on its own. [sem] is the number of
    permits the semaphore has when the task reaches [async with sem]:
    with none, and nobody to release one, the task stays suspended. *)
Definition copy_file (fuel : nat) (src out_root : Path) (sem : Z)
    (retries : Z) (delay : float) (skip_locked : bool) (w : World)
    : run (outcome * World) :=
  let folder := ext_folder_name src in
  let dst_dir := joinpath out_root folder in
  match _mkdir_async dst_dir w with
  | (Raise exc, w1) => Done ((false, Some "error"), w1)
  | (Ok _, w1) =>
      match to_thread_unique_target_path dst_dir (name src) w1 with
      | Done (Raise exc, w2) => Done ((false, Some "error"), w2)
      | Done (Ok target, w2) =>
          if (sem <=? 0)%Z then Blocked w2
          else copy_with_retries fuel src target retries delay skip_locked w2
      | Blocked w2 => Blocked w2
      | OutOfFuel => OutOfFuel
      end
  end.

(** ** Discovery *)

Definition backslash : ascii := ascii_of_nat 92.

Section Discovery.

(** [Path(rel).match(pat)] of pathlib, which may raise. *)
Variable Path_match : Path -> string -> result bool.

(** The [for pat in excludes] loop: whether a pattern matches, the first
    one deciding. *)
Fixpoint excluded (rel : string) (excludes : list string) : result bool :=
  match excludes with
  | [] => Ok false
  | pat :: excludes' =>
      match Path_match (Path_of_string rel) pat with
      | Raise exc => Raise exc
      | Ok true => Ok true
      | Ok false => excluded rel excludes'
      end
  end.

(** The body of [iter_files_recursive] for one entry: [Ok (Some p)] when
    it is yielded, [Ok None] when it is passed over. *)
Definition iter_step (root : Path) (excludes : list string) (p : Path)
    (w : World) : result (option Path) * World :=
  match Path_is_file p w with
  | (Raise exc, w1) => (Raise exc, w1)
  | (Ok false, w1) => (Ok None, w1)
  | (Ok true, w1) =>
      match excludes with
      | [] => (Ok (Some p), w1)
      | _ :: _ =>
          match relative_to p root with
          | Raise exc => (Raise exc, w1)
          | Ok relp =>
              let rel := Str.replace backslash "/" (Path_str relp) in
              match excluded rel excludes with
              | Raise exc => (Raise exc, w1)
              | Ok true => (Ok None, w1)
              | Ok false => (Ok (Some p), w1)
              end
          end
      end
  end.

(** The [for p in root.rglob("*")] loop over the entries listed: what
    raises stops it. *)
Fixpoint iter_entries (root : Path) (excludes : list string)
    (entries : list Path) (w : World) : result (list Path) * World :=
  match entries with
  | [] => (Ok [], w)
  | p :: entries' =>
      match iter_step root excludes p w with
      | (Raise exc, w1) => (Raise exc, w1)
      | (Ok yielded, w1) =>
          match iter_entries root excludes entries' w1 with
          | (Raise exc, w2) => (Raise exc, w2)
          | (Ok files, w2) =>
              (Ok (match yielded with Some q => q :: files | None => files end),
               w2)
          end
      end
  end.

(** [list(iter_files_recursive(root, excludes))] *)
Definition iter_files_recursive (root : Path) (excludes : list string)
    (w : World) : result (list Path) * World :=
  iter_entries root excludes (rglob (fs w) root) w.

(** ** The orchestrator *)

(** The tasks of [read_folder] and [asyncio.gather], which gives their
    results in the order the tasks were created. Here each task is run
    to its end before the next starts: one of the orders in which the
    tasks can take their turns, and not the usual one (as a rule every
    target is named before the first copy ends). What is stated of
    [gather] and [read_folder] below is what holds of every order: how
    many outcomes there are and of which kind, never which paths the
    copies go to. *)
Fixpoint gather (fuel : nat) (files : list Path) (out_root : Path) (sem : Z)
    (retries : Z) (delay : float) (skip_locked : bool) (w : World)
    : run (list outcome * World) :=
  match files with
  | [] => Done ([], w)
  | file_path :: files' =>
      match copy_file fuel file_path out_root sem retries delay skip_locked w with
      | Done (r, w1) =>
          match gather fuel files' out_root sem retries delay skip_locked w1 with
          | Done (results, w2) => Done (r :: results, w2)
          | Blocked w2 => Blocked w2
          | OutOfFuel => OutOfFuel
          end
      | Blocked w1 => Blocked w1
      | OutOfFuel => OutOfFuel
      end
  end.

Definition is_reason (reason : string) (r : option string) : bool :=
  match r with Some x => String.eqb x reason | None => false end.

(** the three sums over [results] *)
Definition count_ok (results : list outcome) : nat :=
  List.length (filter (fun x => fst x) results).

Definition count_locked (results : list outcome) : nat :=
  List.length (filter (fun x => negb (fst x) && is_reason "locked" (snd x)) results).

Definition count_failed (results : list outcome) : nat :=
  List.length (filter (fun x => negb (fst x) && is_reason "error" (snd x)) results).

(** The counts of the closing log line. *)
Record summary : Type := mkSummary { ok : nat; locked : nat; failed : nat }.

(** [read_folder]. It returns [None]; what it logs at the end is given
    back here: [Ok None] when no file was found, [Ok (Some s)] with the
    counts otherwise. *)
Definition read_folder (fuel : nat) (src_root out_root : Path)
    (max_workers : Z) (retries : Z) (delay : float) (skip_locked : bool)
    (excludes : list string) (w : World) : run (result (option summary) * World) :=
  if negb (exists_ (fs w) src_root) || negb (is_dir (fs w) src_root) then
    Done (Raise (mkExn FileNotFoundError (Path_str src_root)), w)
  else
    match _mkdir_async out_root w with
    | (Raise exc, w1) => Done (Raise exc, w1)
    | (Ok _, w1) =>
        (* asyncio.Semaphore(max_workers) *)
        if (max_workers <? 0)%Z then
          Done (Raise (mkExn ValueError "Semaphore initial value must be >= 0"), w1)
        else
          let sem := max_workers in
          match iter_files_recursive src_root excludes w1 with
          | (Raise exc, w2) => Done (Raise exc, w2)
          | (Ok [], w2) => Done (Ok None, w2)
          | (Ok files, w2) =>
              match gather fuel files out_root sem retries delay skip_locked w2 with
              | Done (results, w3) =>
                  Done (Ok (Some (mkSummary (count_ok results)
                                            (count_locked results)
                                            (count_failed results))), w3)
              | Blocked w3 => Blocked w3
              | OutOfFuel => OutOfFuel
              end
          end
    end.

End Discovery.

(** ** pathlib's match, for patterns without bracket expressions *)

(** [fnmatch.fnmatchcase(name, pat)]: [*] matches any run of characters,
    [?] any one character, any other character itself. *)
Fixpoint fnmatch_pat (pat : string) : string -> bool :=
  match pat with
  | EmptyString =>
      fun name => match name with EmptyString => true | _ => false end
  | String c pat' =>
      if Ascii.eqb c "*" then
        fix star (name : string) : bool :=
          fnmatch_pat pat' name
          || match name with
             | EmptyString => false
             | String _ name' => star name'
             end
      else if Ascii.eqb c "?" then
        fun name =>
          match name with
          | EmptyString => false
          | String _ name' => fnmatch_pat pat' name'
          end
      else
        fun name =>
          match name with
          | EmptyString => false
          | String d name' => Ascii.eqb c d && fnmatch_pat pat' name'
          end
  end.

Definition fnmatchcase (name pat : string) : bool := fnmatch_pat pat name.

(** [p.parts]: the root, when there is one, and the components *)
Definition parts (p : Path) : list string :=
  if String.eqb (root p) "" then tail p else root p :: tail p.

(** [all(fnmatchcase(part, pat) for part, pat in zip(parts, pats))] *)
Fixpoint all_match (parts pats : list string) : bool :=
  match parts, pats with
  | part :: parts', pat :: pats' => fnmatchcase part pat && all_match parts' pats'
  | _, _ => true
  end.

(** [PurePath.match]: a relative pattern is matched from the right, an
    absolute one against the whole path; an empty pattern is refused. *)
Definition PurePath_match (p : Path) (path_pattern : string) : result bool :=
  let pat := Path_of_string path_pattern in
  let pat_parts := parts pat in
  match pat_parts with
  | [] => Raise (mkExn ValueError "empty pattern")
  | _ :: _ =>
      if negb (String.eqb (root pat) "")
         && negb (String.eqb (root pat) (root p))
      then Ok false
      else if negb (String.eqb (root pat) "") then
        if negb (List.length pat_parts =? List.length (parts p))%nat then Ok false
        else Ok (all_match (rev (parts p)) (rev (List.tl pat_parts)))
      else if (List.length (parts p) <? List.length pat_parts)%nat then Ok false
      else Ok (all_match (rev (parts p)) (rev pat_parts))
  end.

(** ** Vocabulary of the properties *)

(** The three values a file task returns: Success, SkippedLocked, Failed. *)
Definition Success : outcome := (true, None).
Definition SkippedLocked : outcome := (false, Some "locked").
Definition Failed : outcome := (false, Some "error").

Definition valid_outcome (r : outcome) : Prop :=
  r = Success \/ r = SkippedLocked \/ r = Failed.

(** The events of [n] failed attempts, each followed by its wait, and of
    one attempt more; the waits start at [b] and double. *)
Fixpoint retry_events (src dst : Path) (b : float) (n : nat) : list event :=
  match n with
  | O => [EvCopy src dst]
  | S n' => EvCopy src dst :: EvSleep b :: retry_events src dst (b * 2)%float n'
  end.

(** [n] waits that start at [b] and double. *)
Fixpoint backoffs (b : float) (n : nat) : list float :=
  match n with
  | O => []
  | S n' => b :: backoffs (b * 2)%float n'
  end.

(** The events of a run that stays in a wait: [n] failed attempts, each
    followed by its wait, and one more failed attempt and the wait after
    it. *)
Fixpoint stuck_events (src dst : Path) (b : float) (n : nat) : list event :=
  match n with
  | O => [EvCopy src dst; EvSleep b]
  | S n' => EvCopy src dst :: EvSleep b :: stuck_events src dst (b * 2)%float n'
  end.

(** every attempt from now on raises, and none is a locked file to skip *)
Definition always_fails (skip_locked : bool) (w : World) : Prop :=
  forall k : nat, (clock w <= k)%nat ->
    exists exc : exn,
      faults w k = Some exc /\ _is_locked_error exc && skip_locked = false.

(** the path of [p] relative to [root], as [iter_files_recursive] writes
    it: separators normalized to ["/"] *)
Definition normalized_rel (root p : Path) : string :=
  Str.replace backslash "/"
    (Path_str (mkPath "" (skipn (List.length (tail root)) (tail p)))).

(** some pattern of the list matches [rel] *)
Definition matches_some (Path_match : Path -> string -> result bool)
    (rel : string) (excludes : list string) : Prop :=
  exists pat : string,
    In pat excludes /\ Path_match (Path_of_string rel) pat = Ok true.

(** ** The file tasks side by side *)

Module Scheduler.

(** Where a file task stands in [copy_file]. *)
Inductive phase : Type :=
  | Mkdir      (* at [await _mkdir_async(dst_dir)] *)
  | Naming     (* at [await asyncio.to_thread(_unique_target_path, ...)] *)
  | Waiting    (* at [async with sem], before a permit is taken *)
  | Copying (attempt : Z) (backoff : float)
               (* inside [async with sem], at [await aioshutil.copy2] *)
  | Sleeping (attempt : Z) (backoff : float)
               (* inside [async with sem], at [await asyncio.sleep(backoff)] *)
  | Returned (r : outcome).

(** One move of one task, from [permits] free permits to [permits'].
    What the environment answers (success, or the exception raised) is
    chosen freely. *)
Inductive task_step (retries : Z) (delay : float) (skip_locked : bool)
    : nat -> phase -> nat -> phase -> Prop :=
  | mkdir_done (n : nat) :
      task_step retries delay skip_locked n Mkdir n Naming
  | mkdir_raised (n : nat) (exc : exn) :
      task_step retries delay skip_locked n Mkdir n (Returned Failed)
  | naming_done (n : nat) :
      task_step retries delay skip_locked n Naming n Waiting
  | naming_raised (n : nat) (exc : exn) :
      task_step retries delay skip_locked n Naming n (Returned Failed)
  | permit_taken (n : nat) :
      task_step retries delay skip_locked (S n) Waiting
                n (Copying 0 (py_max 0 delay))
  | copy_done (n : nat) (attempt : Z) (backoff : float) :
      task_step retries delay skip_locked n (Copying attempt backoff)
                (S n) (Returned Success)
  | copy_locked (n : nat) (attempt : Z) (backoff : float) (exc : exn) :
      _is_locked_error exc && skip_locked = true ->
      task_step retries delay skip_locked n (Copying attempt backoff)
                (S n) (Returned SkippedLocked)
  | copy_exhausted (n : nat) (attempt : Z) (backoff : float) (exc : exn) :
      _is_locked_error exc && skip_locked = false ->
      (attempt + 1 >? retries)%Z = true ->
      task_step retries delay skip_locked n (Copying attempt backoff)
                (S n) (Returned Failed)
  | copy_retried (n : nat) (attempt : Z) (backoff : float) (exc : exn) :
      _is_locked_error exc && skip_locked = false ->
      (attempt + 1 >? retries)%Z = false ->
      task_step retries delay skip_locked n (Copying attempt backoff)
                n (Sleeping (attempt + 1) backoff)
  | woke_up (n : nat) (attempt : Z) (backoff : float) :
      PrimFloat.eqb backoff infinity = false ->
      task_step retries delay skip_locked n (Sleeping attempt backoff)
                n (Copying attempt (backoff * 2)%float).

(** The semaphore and the tasks of [read_folder]. *)
Record state : Type := mkState { permits : nat; tasks : list phase }.

(** [asyncio.Semaphore(max_workers)] and one task per file *)
Definition initial (max_workers files : nat) : state :=
  mkState max_workers (repeat Mkdir files).

(** One task moves, the others stay. *)
Inductive step (retries : Z) (delay : float) (skip_locked : bool)
    : state -> state -> Prop :=
  | step_task (n n' : nat) (before after : list phase) (ph ph' : phase) :
      task_step retries delay skip_locked n ph n' ph' ->
      step retries delay skip_locked
           (mkState n (before ++ ph :: after))
           (mkState n' (before ++ ph' :: after)).

(** The states a run goes through. *)
Inductive reachable (retries : Z) (delay : float) (skip_locked : bool)
    (max_workers files : nat) : state -> Prop :=
  | reach_initial :
      reachable retries delay skip_locked max_workers files
                (initial max_workers files)
  | reach_step (s s' : state) :
      reachable retries delay skip_locked max_workers files s ->
      step retries delay skip_locked s s' ->
      reachable retries delay skip_locked max_workers files s'.

(** Several moves of one task, seen with the permits it finds and leaves. *)
Definition task_moves (retries : Z) (delay : float) (skip_locked : bool)
    : nat * phase -> nat * phase -> Prop :=
  clos_refl_trans (nat * phase)
    (fun c c' =>
       task_step retries delay skip_locked (fst c) (snd c) (fst c') (snd c')).

(** a task is in its copy phase: inside [async with sem] *)
Definition in_copy_phase (ph : phase) : bool :=
  match ph with
  | Copying _ _ | Sleeping _ _ => true
  | _ => false
  end.

(** the number of tasks in their copy phase *)
Definition copying (l : list phase) : nat :=
  List.length (filter in_copy_phase l).

End Scheduler.

(** ** Entry point *)

Module Cli.

(** The namespace [parse_args] returns. *)
Record Args : Type := mkArgs {
  source : Path;
  output : Path;
  max_workers : Z;
  log_level : string;
  retries : Z;
  retry_delay : float;
  skip_locked : bool;
  exclude_glob : list string
}.

(** [x or 4] for [x = os.cpu_count()], which is [None] or a count *)
Definition cpu_count_or_4 (cpu_count : option Z) : Z :=
  match cpu_count with
  | Some n => if (n =? 0)%Z then 4%Z else n
  | None => 4%Z
  end.

(** the default of [--max-workers]: [min(32, (os.cpu_count() or 4) * 5)] *)
Definition default_max_workers (cpu_count : option Z) : Z :=
  Z.min 32 (cpu_count_or_4 cpu_count * 5).

(** What [build_parser] gives when only the two positional arguments are
    passed. *)
Definition defaults (cpu_count : option Z) (source output : Path) : Args :=
  mkArgs source output (default_max_workers cpu_count) "INFO" 3 0.5%float
         false [].

(** [x or []] for a list *)
Definition or_empty (l : list string) : list string :=
  match l with
  | [] => []
  | _ :: _ => l
  end.

(** [main], after the arguments are parsed: the exit status of the
    process, 0 when [read_folder] returns and 1 when it raises
    ([SystemExit(1)]). *)
Definition main (Path_match : Path -> string -> result bool) (fuel : nat)
    (args : Args) (w : World) : run (Z * World) :=
  match read_folder Path_match fuel (source args) (output args)
                    (max_workers args) (retries args) (retry_delay args)
                    (skip_locked args) (or_empty (exclude_glob args)) w with
  | Done (Ok _, w') => Done (0%Z, w')
  | Done (Raise exc, w') => Done (1%Z, w')
  | Blocked w' => Blocked w'
  | OutOfFuel => OutOfFuel
  end.

End Cli.

(** ** More vocabulary *)

(** the folders among the entries of a file system *)
Definition is_folder (e : Path * kind) : bool :=
  match snd e with Dir => true | File => false end.

Definition folders (fs : FS) : list Path := map fst (filter is_folder fs).

(** some pattern of the list matches [rel], as a test *)
Definition matches_any (Path_match : Path -> string -> result bool)
    (rel : string) (excludes : list string) : bool :=
  existsb (fun pat =>
             match Path_match (Path_of_string rel) pat with
             | Ok true => true
             | _ => false
             end) excludes.

(** a task that needs no permit to move on *)
Definition moves_freely (ph : Scheduler.phase) : bool :=
  match ph with
  | Scheduler.Mkdir | Scheduler.Naming
  | Scheduler.Copying _ _ | Scheduler.Sleeping _ _ => true
  | Scheduler.Waiting | Scheduler.Returned _ => false
  end.

(** what holds of a task wherever it stands: the attempt counter is
    within the retries, the delay is not negative, the outcome is one of
    the three *)
Definition phase_ok (retries : Z) (ph : Scheduler.phase) : Prop :=
  match ph with
  | Scheduler.Copying attempt backoff =>
      (0 <= attempt <= Z.max retries 0)%Z /\ PrimFloat.ltb backoff 0 = false
  | Scheduler.Sleeping attempt backoff =>
      (1 <= attempt <= retries)%Z /\ PrimFloat.ltb backoff 0 = false
  | Scheduler.Returned r => valid_outcome r
  | _ => True
  end.

(** no wait of the list is without end *)
Definition all_finite (l : list float) : bool :=
  forallb (fun d => negb (PrimFloat.eqb d infinity)) l.

(** the waits that [retries] retries can take, from the delay [delay],
    all end *)
Definition finite_waits (delay : float) (retries : Z) : bool :=
  all_finite (backoffs (py_max 0 delay) (Z.to_nat retries)).

(** no file test of a discovery that starts in [w] and tests [n] entries
    raises *)
Definition tests_pass (w : World) (n : nat) : Prop :=
  forall k : nat, (clock w <= k < clock w + n)%nat -> faults w k = None.

(** the folders above [p], and [p], all exist *)
Definition dirs_exist (fs : FS) (p : Path) : bool :=
  forallb (fun t => exists_ fs (mkPath (root p) t)) (prefixes [] (tail p)).

(** the delay after [n] doublings *)
Fixpoint doubled (b : float) (n : nat) : float :=
  match n with
  | O => b
  | S n' => doubled (b * 2)%float n'
  end.

(** the delay of a task in its copy phase is the first delay, doubled
    once per wait *)
Definition phase_delay (retries : Z) (delay : float) (ph : Scheduler.phase)
    : Prop :=
  match ph with
  | Scheduler.Copying attempt backoff =>
      (0 <= attempt)%Z
      /\ backoff = doubled (py_max 0 delay) (Z.to_nat attempt)
  | Scheduler.Sleeping attempt backoff =>
      (1 <= attempt <= retries)%Z
      /\ backoff = doubled (py_max 0 delay) (Z.to_nat attempt - 1)
  | _ => True
  end.

(** the name ends in a dot *)
Fixpoint ends_in_dot (s : string) : bool :=
  match s with
  | EmptyString => false
  | String a EmptyString => Ascii.eqb a "."
  | String _ s' => ends_in_dot s'
  end.

(** [p] is an entry right inside [dir] *)
Definition child_of (dir p : Path) : Prop :=
  root p = root dir /\ exists x : string, tail p = tail dir ++ [x].

(** the destinations of the copy attempts of a trace *)
Fixpoint copy_targets (tr : list event) : list Path :=
  match tr with
  | [] => []
  | EvCopy _ dst :: tr' => dst :: copy_targets tr'
  | _ :: tr' => copy_targets tr'
  end.

(** the folders made in a trace *)
Fixpoint made_dirs (tr : list event) : list Path :=
  match tr with
  | [] => []
  | EvMkdir p :: tr' => p :: made_dirs tr'
  | _ :: tr' => made_dirs tr'
  end.

(** ** A source tree for the examples *)

(** [/src] holds [a.txt], [b.TXT], [c] and [skip/d.log]. *)
Definition example_fs : FS :=
  [ (Path_of_string "/src", Dir);
    (Path_of_string "/src/a.txt", File);
    (Path_of_string "/src/b.TXT", File);
    (Path_of_string "/src/c", File);
    (Path_of_string "/src/skip", Dir);
    (Path_of_string "/src/skip/d.log", File) ].

(** an environment in which nothing fails *)
Definition example_world : World := mkWorld example_fs (fun _ => None) 0 [].

(** an environment in which the operations numbered 6 and 8 of a run
    over [example_fs] fail: after the destination root is made (0) and
    the five entries are tested (1 to 5), making the folder for [a.txt]
    (6), and, after the folder for [b.TXT] is made (7), naming its
    target (8) *)
Definition faulty_world : World :=
  mkWorld example_fs
    (fun k => if (k =? 6)%nat || (k =? 8)%nat
              then Some (mkExn OSError "disk error") else None)
    0 [].

(** ** Facts about Python strings *)

Module StrFacts.
Import Str.
Local Open Scope string_scope.

Lemma append_nil_r (s : string) : s ++ "" = s.
Proof. induction s as [|c s IH]; simpl; [reflexivity | now rewrite IH]. Qed.

Lemma length_append (s t : string) :
  String.length (s ++ t) = (String.length s + String.length t)%nat.
Proof. induction s as [|c s IH]; simpl; [reflexivity | now rewrite IH]. Qed.

Lemma append_assoc (s t u : string) : (s ++ t) ++ u = s ++ (t ++ u).
Proof. induction s as [|c s IH]; simpl; [reflexivity | now rewrite IH]. Qed.

Lemma substring_all (s : string) : substring 0 (String.length s) s = s.
Proof. induction s as [|c s IH]; simpl; [reflexivity | now rewrite IH]. Qed.

Lemma substring_skip (pre s : string) (n : nat) :
  substring (String.length pre) n (pre ++ s) = substring 0 n s.
Proof. induction pre as [|c pre IH]; simpl; [reflexivity | exact IH]. Qed.

Lemma substring_take (pre s : string) :
  substring 0 (String.length pre) (pre ++ s) = pre.
Proof.
  induction pre as [|c pre IH]; simpl.
  - now destruct s.
  - now rewrite IH.
Qed.

Lemma append_inv_head (s t u : string) : s ++ t = s ++ u -> t = u.
Proof.
  induction s as [|c s IH]; simpl; intros H; [exact H|].
  injection H as H. now apply IH.
Qed.

Lemma append_inv_tail (t s u : string) : s ++ t = u ++ t -> s = u.
Proof.
  revert u. induction s as [|c s IH]; intros [|d u] H; simpl in H.
  - reflexivity.
  - apply (f_equal String.length) in H. simpl in H.
    rewrite length_append in H. lia.
  - apply (f_equal String.length) in H. simpl in H.
    rewrite length_append in H. lia.
  - injection H as -> H. f_equal. now apply IH.
Qed.

Lemma rfind_from_lacks (c : ascii) (s : string) (pos : Z) :
  lacks c s = true -> rfind_from c s pos = (-1)%Z.
Proof.
  revert pos. induction s as [|a s IH]; intros pos H; simpl in *.
  - reflexivity.
  - apply andb_true_iff in H as [Ha Hs]. rewrite (IH _ Hs). simpl.
    apply negb_true_iff in Ha. now rewrite Ha.
Qed.

Lemma rfind_from_last (c : ascii) (pre post : string) (pos : Z) :
  (0 <= pos)%Z -> lacks c post = true ->
  rfind_from c (pre ++ String c post) pos = (pos + len pre)%Z.
Proof.
  unfold len. revert pos. induction pre as [|a pre IH]; intros pos Hpos H; simpl.
  - rewrite (rfind_from_lacks _ _ _ H). simpl. rewrite Ascii.eqb_refl. lia.
  - rewrite IH by (lia || assumption).
    replace (0 <=? pos + 1 + Z.of_nat (String.length pre))%Z with true
      by (symmetry; apply Z.leb_le; lia).
    lia.
Qed.

Lemma rfind_lacks (c : ascii) (s : string) :
  lacks c s = true -> rfind c s = (-1)%Z.
Proof. apply rfind_from_lacks. Qed.

Lemma rfind_last (c : ascii) (pre post : string) :
  lacks c post = true -> rfind c (pre ++ String c post) = len pre.
Proof.
  intros H. unfold rfind. rewrite rfind_from_last by (lia || assumption). lia.
Qed.

Lemma lower_ascii_dot (a : ascii) :
  Ascii.eqb (lower_ascii a) "." = Ascii.eqb a ".".
Proof.
  destruct a as [[] [] [] [] [] [] [] []]; reflexivity.
Qed.

Lemma lacks_lower (s : string) : lacks "." (lower s) = lacks "." s.
Proof.
  induction s as [|a s IH]; simpl; [reflexivity|].
  now rewrite lower_ascii_dot, IH.
Qed.

Lemma lstrip_lacks (c : ascii) (s : string) : lacks c s = true -> lstrip c s = s.
Proof.
  destruct s as [|a s]; simpl; [reflexivity|]. intros H.
  apply andb_true_iff in H as [Ha _]. apply negb_true_iff in Ha. now rewrite Ha.
Qed.

Lemma lower_eq_nil (s : string) : String.eqb (lower s) "" = String.eqb s "".
Proof. now destruct s. Qed.

End StrFacts.

(** ** The extension classifier *)

Section Classifier.
Import Str StrFacts.
Local Open Scope string_scope.

Lemma suffix_split (p : Path) (pre post : string) :
  name p = pre ++ "." ++ post -> lacks "." post = true ->
  suffix p = if String.eqb pre "" || String.eqb post "" then "" else "." ++ post.
Proof.
  intros Hn Hp. unfold suffix. rewrite Hn.
  change (pre ++ "." ++ post) with (pre ++ String "." post).
  rewrite rfind_last by assumption. unfold len, slice_from.
  rewrite length_append. simpl String.length.
  destruct pre as [|a pre]; [reflexivity|].
  destruct post as [|b post].
  - simpl String.eqb. simpl orb.
    match goal with |- context [(?x <? ?y - 1)%Z] =>
      replace (x <? y - 1)%Z with false
        by (symmetry; apply Z.ltb_ge; simpl String.length; lia) end.
    now rewrite andb_false_r.
  - simpl String.eqb. simpl orb.
    match goal with |- context [(?x <? ?y - 1)%Z] =>
      replace (x <? y - 1)%Z with true
        by (symmetry; apply Z.ltb_lt; simpl String.length; lia) end.
    match goal with |- context [(0 <? ?x)%Z] =>
      replace (0 <? x)%Z with true
        by (symmetry; apply Z.ltb_lt; simpl String.length; lia) end.
    simpl andb. cbv iota. rewrite Nat2Z.id.
    rewrite substring_skip.
    match goal with |- context [substring 0 ?n _] =>
      replace n with (String.length (String "." (String b post)))
        by (simpl String.length; lia) end.
    apply substring_all.
Qed.

Lemma suffix_no_dot (p : Path) : lacks "." (name p) = true -> suffix p = "".
Proof.
  intros H. unfold suffix. now rewrite (rfind_lacks _ _ H).
Qed.

Lemma ext_of_suffix (p : Path) (post : string) :
  lacks "." post = true -> suffix p = "." ++ post ->
  ext_folder_name p = if String.eqb post "" then "no_extension" else lower post.
Proof.
  intros Hp Hs. unfold ext_folder_name. rewrite Hs. simpl.
  rewrite lstrip_lacks by now rewrite lacks_lower.
  now rewrite lower_eq_nil.
Qed.

End Classifier.

(** C1, amended. [ext_folder_name] is a total function of the path. When
    the last component is [pre ++ "." ++ post] with no dot in [post], and
    [post] is made of ASCII characters, the folder is [post] with its
    letters [A-Z] in lower case, unless [pre] or [post] is empty: a name
    with no dot but a leading one, or one that ends in a dot, has no
    suffix and goes to ["no_extension"], as a name with no dot does. So
    ["Photo.JPG"] goes to ["jpg"], ["archive.tar.gz"] to ["gz"], ["README"]
    to ["no_extension"], and [".gitignore"] to ["no_extension"]. *)
Theorem ext_folder_name_spec (p : Path) :
  (forall pre post : string,
      name p = (pre ++ "." ++ post)%string -> Str.lacks "." post = true ->
      Str.is_ascii post = true ->
      ext_folder_name p =
        if String.eqb pre "" || String.eqb post "" then "no_extension"
        else Str.lower post)
  /\ (Str.lacks "." (name p) = true -> ext_folder_name p = "no_extension")
  /\ ext_folder_name (Path_of_string "Photo.JPG") = "jpg"
  /\ ext_folder_name (Path_of_string "archive.tar.gz") = "gz"
  /\ ext_folder_name (Path_of_string "README") = "no_extension"
  /\ ext_folder_name (Path_of_string ".gitignore") = "no_extension".
Proof.
  split; [|split; [|repeat split]].
  - intros pre post Hn Hp _.
    pose proof (suffix_split p pre post Hn Hp) as Hs.
    destruct (String.eqb pre "" || String.eqb post "") eqn:E.
    + unfold ext_folder_name. now rewrite Hs.
    + apply orb_false_iff in E as [_ E].
      rewrite (ext_of_suffix p post Hp Hs). now rewrite E.
  - intros H. unfold ext_folder_name. now rewrite (suffix_no_dot p H).
Qed.

Lemma ext_folder_name_spec_witness :
  ext_folder_name (Path_of_string "/data/archive.TAR.Gz") = "gz".
Proof.
  exact (proj1 (ext_folder_name_spec (Path_of_string "/data/archive.TAR.Gz"))
               "archive.TAR" "Gz" eq_refl eq_refl eq_refl).
Defined.

(** C1 as stated fails on a name that is a dot and letters: pathlib gives
    [".gitignore"] no suffix, so it is not sorted into ["gitignore"]. *)
Lemma ext_folder_name_gitignore :
  ext_folder_name (Path_of_string ".gitignore") = "no_extension"
  /\ ext_folder_name (Path_of_string ".gitignore") <> "gitignore".
Proof. split; [reflexivity | discriminate]. Qed.

(** ** The destination namer *)

Section Namer.
Import Str StrFacts.
Local Open Scope string_scope.

Lemma lacks_append (c : ascii) (s t : string) :
  lacks c (s ++ t) = lacks c s && lacks c t.
Proof.
  induction s as [|a s IH]; simpl; [reflexivity|].
  now rewrite IH, andb_assoc.
Qed.

Lemma lacks_substring (c : ascii) (s : string) (n m : nat) :
  lacks c s = true -> lacks c (substring n m s) = true.
Proof.
  revert n m. induction s as [|a s IH]; intros n m H; simpl in *.
  - now destruct n, m.
  - apply andb_true_iff in H as [Ha Hs].
    destruct n as [|n]; [destruct m as [|m]|]; simpl; auto.
    rewrite Ha. simpl. now apply IH.
Qed.

Lemma split_aux_lacks (sep : ascii) (s cur : string) :
  lacks sep cur = true ->
  Forall (fun x => lacks sep x = true) (split_aux sep s cur).
Proof.
  revert cur. induction s as [|a s IH]; intros cur H; simpl.
  - now constructor.
  - destruct (Ascii.eqb a sep) eqn:E.
    + constructor; [assumption | now apply IH].
    + apply IH. rewrite lacks_append, H. simpl. now rewrite E.
Qed.

Lemma split_aux_single (sep : ascii) (s cur : string) :
  lacks sep s = true -> split_aux sep s cur = [cur ++ s].
Proof.
  revert cur. induction s as [|a s IH]; intros cur H; simpl in *.
  - now rewrite append_nil_r.
  - apply andb_true_iff in H as [Ha Hs]. apply negb_true_iff in Ha.
    rewrite Ha, (IH _ Hs), append_assoc. reflexivity.
Qed.

Lemma name_lacks_sep (s : string) : lacks "/" (name (Path_of_string s)) = true.
Proof.
  unfold name, Path_of_string, split. simpl tail.
  assert (H : Forall (fun x => lacks "/" x = true)
                     (filter keep_part (split_aux "/" s ""))).
  { apply Forall_forall. intros x Hx. apply filter_In in Hx as [Hx _].
    revert x Hx. apply Forall_forall. now apply split_aux_lacks. }
  induction H as [|x l Hx Hl IH]; [reflexivity|].
  destruct l; [exact Hx | exact IH].
Qed.

Lemma stem_lacks_sep (s : string) : lacks "/" (stem (Path_of_string s)) = true.
Proof.
  unfold stem. destruct (_ && _).
  - apply lacks_substring, name_lacks_sep.
  - apply name_lacks_sep.
Qed.

Lemma suffix_lacks_sep (s : string) : lacks "/" (suffix (Path_of_string s)) = true.
Proof.
  unfold suffix. destruct (_ && _).
  - apply lacks_substring, name_lacks_sep.
  - reflexivity.
Qed.

Lemma digits_lack_sep (d : Decimal.uint) :
  lacks "/" (NilEmpty.string_of_uint d) = true.
Proof. induction d; simpl; auto. Qed.

Lemma of_nat_lacks_sep (i : nat) : lacks "/" (of_nat i) = true.
Proof.
  unfold of_nat, NilZero.string_of_uint.
  destruct (Nat.to_uint i) eqn:E; try reflexivity;
    rewrite <- E; apply digits_lack_sep.
Qed.

Lemma to_uint_not_nil (i : nat) : Nat.to_uint i <> Decimal.Nil.
Proof.
  intros H. pose proof (DecimalNat.Unsigned.of_to i) as Hi.
  rewrite H in Hi. simpl in Hi. subst i. discriminate H.
Qed.

Lemma of_nat_inj (i j : nat) : of_nat i = of_nat j -> i = j.
Proof.
  unfold of_nat, NilZero.string_of_uint. intros H.
  apply DecimalNat.Unsigned.to_uint_inj.
  pose proof (to_uint_not_nil i) as Hi. pose proof (to_uint_not_nil j) as Hj.
  assert (E : NilEmpty.string_of_uint (Nat.to_uint i)
              = NilEmpty.string_of_uint (Nat.to_uint j)).
  { destruct (Nat.to_uint i), (Nat.to_uint j); try congruence; exact H. }
  apply (f_equal NilEmpty.uint_of_string) in E.
  rewrite !NilEmpty.usu in E. congruence.
Qed.

Lemma numbered_inj (st su : string) (i j : nat) :
  numbered st i su = numbered st j su -> i = j.
Proof.
  unfold numbered. intros H.
  apply append_inv_head in H. apply (append_inv_head " (") in H.
  apply append_inv_tail in H. now apply of_nat_inj.
Qed.

Lemma numbered_lacks_sep (st su : string) (i : nat) :
  lacks "/" st = true -> lacks "/" su = true ->
  lacks "/" (numbered st i su) = true.
Proof.
  intros H1 H2. unfold numbered.
  rewrite !lacks_append, H1, H2, of_nat_lacks_sep. reflexivity.
Qed.

Lemma numbered_length (st su : string) (i : nat) :
  (3 <= String.length (numbered st i su))%nat.
Proof.
  unfold numbered. rewrite !length_append. simpl String.length. lia.
Qed.

Lemma Path_of_string_single (s : string) :
  lacks "/" s = true -> (2 <= String.length s)%nat ->
  Path_of_string s = mkPath "" [s].
Proof.
  intros H L. unfold Path_of_string, split.
  rewrite (split_aux_single _ _ _ H). simpl filter.
  destruct s as [|a [|b s]]; simpl in L; try lia.
  simpl in H. apply andb_true_iff in H as [Ha _].
  apply negb_true_iff in Ha.
  assert (Hk : keep_part (String a (String b s)) = true).
  { unfold keep_part. simpl. destruct (Ascii.eqb a "."); reflexivity. }
  simpl append. rewrite Hk. f_equal.
  unfold parse_root.
  destruct a as [[] [] [] [] [] [] [] []]; try reflexivity; discriminate Ha.
Qed.

Lemma joinpath_numbered (dst_dir : Path) (st su : string) (i : nat) :
  lacks "/" st = true -> lacks "/" su = true ->
  joinpath dst_dir (numbered st i su)
  = mkPath (root dst_dir) (tail dst_dir ++ [numbered st i su])%list.
Proof.
  intros H1 H2. unfold joinpath.
  rewrite Path_of_string_single.
  - reflexivity.
  - now apply numbered_lacks_sep.
  - pose proof (numbered_length st su i). lia.
Qed.

Lemma joinpath_numbered_inj (dst_dir : Path) (st su : string) (i j : nat) :
  lacks "/" st = true -> lacks "/" su = true ->
  joinpath dst_dir (numbered st i su) = joinpath dst_dir (numbered st j su) ->
  i = j.
Proof.
  intros H1 H2 H. rewrite !joinpath_numbered in H by assumption.
  injection H as H. apply app_inv_head in H. injection H as H.
  now apply numbered_inj in H.
Qed.

End Namer.

Section NamerSearch.
Import Str StrFacts.

Lemma Path_eqb_eq (p q : Path) : Path_eqb p q = true <-> p = q.
Proof.
  unfold Path_eqb. destruct p as [r t], q as [r' t']; simpl. split.
  - intros H. apply andb_true_iff in H as [Hr Ht].
    apply String.eqb_eq in Hr.
    destruct (list_eq_dec string_dec t t'); [congruence | discriminate].
  - intros [= -> ->]. rewrite String.eqb_refl.
    destruct (list_eq_dec string_dec t' t'); [reflexivity | contradiction].
Qed.

Lemma exists_In (fs : FS) (p : Path) :
  exists_ fs p = true -> In p (map fst fs).
Proof.
  unfold exists_. induction fs as [|[q k] fs IH]; simpl; [discriminate|].
  destruct (Path_eqb q p) eqn:E.
  - intros _. left. now apply Path_eqb_eq.
  - intros H. right. now apply IH.
Qed.

Variables (fs : FS) (dst_dir : Path) (st su : string).
Hypothesis st_lacks : lacks "/" st = true.
Hypothesis su_lacks : lacks "/" su = true.

Let cand (i : nat) : Path := joinpath dst_dir (numbered st i su).

(** When the search runs dry, every index it tried names an entry. *)
Lemma unique_probe_dry (fuel i : nat) :
  unique_probe fuel fs dst_dir st su i = None ->
  forall k, (k < fuel)%nat -> exists_ fs (cand (i + k)) = true.
Proof.
  revert i. induction fuel as [|fuel IH]; intros i H k Hk; [lia|].
  simpl in H. fold (cand i) in H.
  destruct (exists_ fs (cand i)) eqn:E; simpl in H; [|discriminate].
  destruct k as [|k]; [now rewrite Nat.add_0_r|].
  replace (i + S k)%nat with ((i + 1) + k)%nat by lia.
  apply IH; [assumption | lia].
Qed.

(** What the search finds is the first free index. *)
Lemma unique_probe_found (fuel i : nat) (p : Path) :
  unique_probe fuel fs dst_dir st su i = Some p ->
  exists k, p = cand (i + k) /\ exists_ fs p = false
            /\ forall k', (k' < k)%nat -> exists_ fs (cand (i + k')) = true.
Proof.
  revert i. induction fuel as [|fuel IH]; intros i H; [discriminate|].
  simpl in H. fold (cand i) in H.
  destruct (exists_ fs (cand i)) eqn:E; simpl in H.
  - destruct (IH _ H) as (k & Hp & Hf & Hb). exists (S k).
    replace (i + S k)%nat with ((i + 1) + k)%nat by lia.
    repeat split; try assumption.
    intros [|k'] Hk'; [now rewrite Nat.add_0_r|].
    replace (i + S k')%nat with ((i + 1) + k')%nat by lia.
    apply Hb. lia.
  - injection H as <-. exists 0%nat. rewrite Nat.add_0_r.
    repeat split; try assumption. intros k' Hk'. lia.
Qed.

Lemma cand_NoDup (i n : nat) : NoDup (map cand (seq i n)).
Proof.
  revert i. induction n as [|n IH]; intros i; simpl; constructor.
  - intros Hin. apply in_map_iff in Hin as (j & Hj & Hin).
    apply in_seq in Hin.
    apply (joinpath_numbered_inj _ _ _ _ _ st_lacks su_lacks) in Hj. lia.
  - apply IH.
Qed.

(** The index grows and the entries are finitely many: with more fuel
    than entries the search ends. *)
Lemma unique_probe_ends (fuel i : nat) :
  (List.length fs < fuel)%nat ->
  unique_probe fuel fs dst_dir st su i <> None.
Proof.
  intros Hfuel Hnone.
  pose proof (unique_probe_dry fuel i Hnone) as Hall.
  assert (Hincl : incl (map cand (seq i fuel)) (map fst fs)).
  { intros p Hp. apply in_map_iff in Hp as (j & <- & Hj).
    apply in_seq in Hj. apply exists_In.
    replace j with (i + (j - i))%nat by lia. apply Hall. lia. }
  pose proof (NoDup_incl_length (cand_NoDup i fuel) Hincl) as Hlen.
  rewrite !length_map, length_seq in Hlen. lia.
Qed.

End NamerSearch.

(** C5. With more fuel than the file system has entries,
    [_unique_target_path] returns a path, and the path does not exist.
    It is [dst_dir / filename] when that is free; otherwise it is
    [dst_dir / "{stem} ({i}){suffix}"] for an [i >= 1] such that every
    index from 1 below [i] is taken: the probes go through 1, 2, 3, ... in
    order and stop at the smallest free one. *)
Theorem unique_target_path_spec (fuel : nat) (fs : FS) (dst_dir : Path)
    (filename : string) :
  (List.length fs < fuel)%nat ->
  exists p : Path,
    _unique_target_path fuel fs dst_dir filename = Some p
    /\ exists_ fs p = false
    /\ (exists_ fs (joinpath dst_dir filename) = false ->
        p = joinpath dst_dir filename)
    /\ (exists_ fs (joinpath dst_dir filename) = true ->
        exists i : nat,
          (1 <= i)%nat
          /\ p = joinpath dst_dir
                   (numbered (stem (Path_of_string filename)) i
                             (suffix (Path_of_string filename)))
          /\ forall j : nat, (1 <= j < i)%nat ->
               exists_ fs (joinpath dst_dir
                   (numbered (stem (Path_of_string filename)) j
                             (suffix (Path_of_string filename)))) = true).
Proof.
  intros Hfuel. unfold _unique_target_path.
  destruct (exists_ fs (joinpath dst_dir filename)) eqn:E; simpl.
  - pose proof (unique_probe_ends fs dst_dir _ _
                  (stem_lacks_sep filename) (suffix_lacks_sep filename)
                  fuel 1 Hfuel) as Hends.
    destruct (unique_probe fuel fs dst_dir _ _ 1) as [p|] eqn:Hp;
      [|contradiction].
    destruct (unique_probe_found _ _ _ _ _ _ _ Hp) as (k & Hk & Hfree & Hbelow).
    exists p. repeat split; try assumption; [discriminate|].
    intros _. exists (1 + k)%nat. repeat split; [lia | assumption |].
    intros j Hj. replace j with (1 + (j - 1))%nat by lia. apply Hbelow. lia.
  - exists (joinpath dst_dir filename). repeat split; try assumption.
    discriminate.
Qed.

(** The bucket is empty, then holds [name.ext], then [name (1).ext] too. *)
Lemma unique_target_path_spec_witness :
  let d := Path_of_string "/out/ext" in
  let fs2 := [(joinpath d "name.ext", File); (joinpath d "name (1).ext", File)] in
  exists p : Path,
    _unique_target_path 3 fs2 d "name.ext" = Some p
    /\ exists_ fs2 p = false
    /\ _unique_target_path 1 [] d "name.ext" = Some (joinpath d "name.ext")
    /\ _unique_target_path 2 [(joinpath d "name.ext", File)] d "name.ext"
       = Some (joinpath d "name (1).ext")
    /\ _unique_target_path 3 fs2 d "name.ext" = Some (joinpath d "name (2).ext").
Proof.
  intros d fs2.
  destruct (unique_target_path_spec 3 fs2 d "name.ext") as (p & Hp & Hfree & _).
  - simpl. lia.
  - exists p. repeat split; try assumption; reflexivity.
Defined.

(** ** The retry/backoff engine *)

Section Engine.

Variables (src dst : Path) (retries : Z) (skip_locked : bool).

Lemma copies_retry_events (b : float) (n : nat) :
  copies (retry_events src dst b n) = S n.
Proof. revert b. induction n as [|n IH]; intros b; simpl; [|rewrite IH]; reflexivity. Qed.

Lemma waits_retry_events (b : float) (n : nat) :
  waits (retry_events src dst b n) = backoffs b n.
Proof. revert b. induction n as [|n IH]; intros b; simpl; [|rewrite IH]; reflexivity. Qed.

Lemma copy_sources_retry_events (b : float) (n : nat) :
  copy_sources (retry_events src dst b n) = repeat src (S n).
Proof. revert b. induction n as [|n IH]; intros b; simpl; [|rewrite IH]; reflexivity. Qed.

Lemma copies_stuck_events (b : float) (n : nat) :
  copies (stuck_events src dst b n) = S n.
Proof. revert b. induction n as [|n IH]; intros b; simpl; [|rewrite IH]; reflexivity. Qed.

Lemma waits_stuck_events (b : float) (n : nat) :
  waits (stuck_events src dst b n) = backoffs b (S n).
Proof.
  revert b. induction n as [|n IH]; intros b; [reflexivity|].
  simpl. now rewrite IH.
Qed.

Lemma copy2_raises (w : World) (exc : exn) :
  faults w (clock w) = Some exc ->
  copy2 src dst w = (Raise exc, tick (emit (EvCopy src dst) w)).
Proof. intros H. unfold copy2. now rewrite H. Qed.

Lemma copy2_succeeds (w : World) :
  faults w (clock w) = None ->
  copy2 src dst w
  = (Ok tt, set_fs (add_entry dst File (fs w)) (tick (emit (EvCopy src dst) w))).
Proof. intros H. unfold copy2. now rewrite H. Qed.

Lemma sleep_ends (b : float) (w : World) :
  PrimFloat.eqb b infinity = false -> sleep b w = Done (emit (EvSleep b) w).
Proof. intros H. unfold sleep. now rewrite H. Qed.

Lemma sleep_endless (b : float) (w : World) :
  PrimFloat.eqb b infinity = true -> sleep b w = Blocked (emit (EvSleep b) w).
Proof. intros H. unfold sleep. now rewrite H. Qed.

Lemma all_finite_cons (b : float) (n : nat) :
  all_finite (backoffs b (S n)) = true ->
  PrimFloat.eqb b infinity = false
  /\ all_finite (backoffs (b * 2)%float n) = true.
Proof.
  unfold all_finite. simpl. intros H. apply andb_true_iff in H as [H1 H2].
  split; [now apply negb_true_iff | exact H2].
Qed.

(** Whatever the environment does, the loop ends within
    [retries - attempt + 1] rounds, returning or staying in a wait
    without end; its events are attempts separated by doubling waits. *)
Lemma loop_ends (n : nat) :
  forall (fuel : nat) (attempt : Z) (backoff : float) (w : World),
    n = Z.to_nat (retries - attempt) -> (n < fuel)%nat ->
    exists (w' : World) (m : nat),
      (m <= n)%nat
      /\ ((exists r : outcome,
              copy_with_retries_loop fuel src dst retries skip_locked attempt
                                     backoff w = Done (r, w'))
          /\ trace w' = trace w ++ retry_events src dst backoff m
          \/ copy_with_retries_loop fuel src dst retries skip_locked attempt
                                    backoff w = Blocked w'
             /\ (m < n)%nat
             /\ trace w' = trace w ++ stuck_events src dst backoff m
             /\ PrimFloat.eqb (doubled backoff m) infinity = true).
Proof.
  induction n as [|n IH]; intros fuel attempt backoff w Hn Hfuel;
    (destruct fuel as [|fuel]; [lia|]); cbn [copy_with_retries_loop];
    unfold copy2; destruct (faults w (clock w)) as [exc|] eqn:Hf.
  - destruct (_is_locked_error exc && skip_locked).
    + eexists _, 0%nat. split; [lia|]. left. split; [now eexists | reflexivity].
    + replace (attempt + 1 >? retries)%Z with true
        by (symmetry; apply Z.gtb_lt; lia).
      eexists _, 0%nat. split; [lia|]. left. split; [now eexists | reflexivity].
  - eexists _, 0%nat. split; [lia|]. left. split; [now eexists | reflexivity].
  - destruct (_is_locked_error exc && skip_locked).
    + eexists _, 0%nat. split; [lia|]. left. split; [now eexists | reflexivity].
    + destruct (attempt + 1 >? retries)%Z eqn:Hgt.
      * eexists _, 0%nat. split; [lia|]. left. split; [now eexists | reflexivity].
      * destruct (PrimFloat.eqb backoff infinity) eqn:Hb.
        -- rewrite (sleep_endless _ _ Hb).
           eexists _, 0%nat. split; [lia|]. right.
           split; [reflexivity|]. split; [lia|]. split; [|exact Hb].
           simpl. now rewrite <- app_assoc.
        -- rewrite (sleep_ends _ _ Hb).
           destruct (IH fuel (attempt + 1)%Z (backoff * 2)%float
                       (emit (EvSleep backoff) (tick (emit (EvCopy src dst) w))))
             as (w' & m & Hm & [[(r & Hrun) Htr] | (Hrun & Hlt & Htr & Hinf)]);
             [lia | lia | |].
           ++ exists w', (S m). split; [lia|]. left.
              split; [now exists r|]. rewrite Htr. simpl.
              now rewrite <- !app_assoc.
           ++ exists w', (S m). split; [lia|]. right.
              split; [exact Hrun|]. split; [lia|]. split; [|exact Hinf].
              rewrite Htr. simpl. now rewrite <- !app_assoc.
  - eexists _, 0%nat. split; [lia|]. left. split; [now eexists | reflexivity].
Qed.

(** When the waits that may come all end, the loop returns. *)
Lemma loop_total (n : nat) :
  forall (fuel : nat) (attempt : Z) (backoff : float) (w : World),
    n = Z.to_nat (retries - attempt) -> (n < fuel)%nat ->
    all_finite (backoffs backoff n) = true ->
    exists (r : outcome) (w' : World) (m : nat),
      copy_with_retries_loop fuel src dst retries skip_locked attempt backoff w
      = Done (r, w')
      /\ (m <= n)%nat
      /\ trace w' = trace w ++ retry_events src dst backoff m
      /\ faults w' = faults w.
Proof.
  induction n as [|n IH]; intros fuel attempt backoff w Hn Hfuel Hfin;
    (destruct fuel as [|fuel]; [lia|]); cbn [copy_with_retries_loop];
    unfold copy2; destruct (faults w (clock w)) as [exc|] eqn:Hf.
  - destruct (_is_locked_error exc && skip_locked).
    + eexists _, _, 0%nat. repeat split; reflexivity || lia.
    + replace (attempt + 1 >? retries)%Z with true
        by (symmetry; apply Z.gtb_lt; lia).
      eexists _, _, 0%nat. repeat split; reflexivity || lia.
  - eexists _, _, 0%nat. repeat split; reflexivity || lia.
  - destruct (_is_locked_error exc && skip_locked).
    + eexists _, _, 0%nat. repeat split; reflexivity || lia.
    + destruct (attempt + 1 >? retries)%Z eqn:Hgt.
      * eexists _, _, 0%nat. repeat split; reflexivity || lia.
      * apply all_finite_cons in Hfin as [Hb Hfin].
        rewrite (sleep_ends _ _ Hb).
        destruct (IH fuel (attempt + 1)%Z (backoff * 2)%float
                    (emit (EvSleep backoff) (tick (emit (EvCopy src dst) w))))
          as (r & w' & m & Hrun & Hm & Htr & Hfl); [lia | lia | exact Hfin |].
        exists r, w', (S m). repeat split; try assumption; try lia.
        rewrite Htr. simpl. now rewrite <- !app_assoc.
  - eexists _, _, 0%nat. repeat split; reflexivity || lia.
Qed.

(** When every attempt fails, none is skipped and the waits all end, the
    loop uses up the retries that are left. *)
Lemma loop_exhaust (n : nat) :
  forall (fuel : nat) (attempt : Z) (backoff : float) (w : World),
    (attempt <= retries)%Z -> n = Z.to_nat (retries - attempt) ->
    (n < fuel)%nat -> always_fails skip_locked w ->
    all_finite (backoffs backoff n) = true ->
    exists w' : World,
      copy_with_retries_loop fuel src dst retries skip_locked attempt backoff w
      = Done ((false, Some "error"), w')
      /\ trace w' = trace w ++ retry_events src dst backoff n
      /\ fs w' = fs w.
Proof.
  induction n as [|n IH]; intros fuel attempt backoff w Hle Hn Hfuel Hall Hfin;
    (destruct fuel as [|fuel]; [lia|]); cbn [copy_with_retries_loop];
    destruct (Hall (clock w) (le_n _)) as (exc & Hf & Hskip);
    rewrite (copy2_raises w exc Hf), Hskip.
  - replace (attempt + 1 >? retries)%Z with true
      by (symmetry; apply Z.gtb_lt; lia).
    eexists. repeat split; reflexivity.
  - replace (attempt + 1 >? retries)%Z with false
      by (symmetry; rewrite Z.gtb_ltb; apply Z.ltb_ge; lia).
    apply all_finite_cons in Hfin as [Hb Hfin].
    rewrite (sleep_ends _ _ Hb).
    destruct (IH fuel (attempt + 1)%Z (backoff * 2)%float
                (emit (EvSleep backoff) (tick (emit (EvCopy src dst) w))))
      as (w' & Hrun & Htr & Hfs); try lia; try assumption.
    + intros k Hk. apply Hall. simpl in Hk. lia.
    + exists w'. repeat split; try assumption.
      rewrite Htr. simpl. now rewrite <- !app_assoc.
Qed.

End Engine.

(** C2, amended. For a retry count [retries >= 0], when every copy
    attempt raises, none is a locked file to skip, and none of the
    [retries] waits [max(0.0, delay) * 2^k] is infinite,
    [copy_with_retries] makes exactly [retries + 1] attempts, with
    [retries] waits between them, and returns [(False, "error")]. *)
Theorem retry_exhaustion (fuel : nat) (src dst : Path) (retries : Z)
    (delay : float) (skip_locked : bool) (w : World) :
  (0 <= retries)%Z -> (Z.to_nat retries < fuel)%nat ->
  always_fails skip_locked w ->
  finite_waits delay retries = true ->
  exists (w' : World) (evs : list event),
    copy_with_retries fuel src dst retries delay skip_locked w
    = Done ((false, Some "error"), w')
    /\ trace w' = trace w ++ evs
    /\ copies evs = (Z.to_nat retries + 1)%nat
    /\ List.length (waits evs) = Z.to_nat retries.
Proof.
  intros Hr Hfuel Hall Hfin. unfold copy_with_retries.
  destruct (loop_exhaust src dst retries skip_locked (Z.to_nat retries) fuel
              0%Z (py_max 0 delay) w) as (w' & Hrun & Htr & _);
    [assumption | now rewrite Z.sub_0_r | assumption | assumption
    | exact Hfin |].
  exists w', (retry_events src dst (py_max 0 delay) (Z.to_nat retries)).
  repeat split; try assumption.
  - rewrite copies_retry_events. lia.
  - rewrite waits_retry_events.
    generalize (py_max 0 delay). generalize (Z.to_nat retries) as n.
    induction n as [|n IH]; intros b; simpl; [|rewrite IH]; reflexivity.
Qed.

(** [retries=2] and a copy that always fails: three attempts, then Failed. *)
Lemma retry_exhaustion_witness :
  let src := Path_of_string "/src/a.txt" in
  let dst := Path_of_string "/out/txt/a.txt" in
  let w := mkWorld [] (fun _ => Some (mkExn OSError "disk error")) 0 [] in
  exists (w' : World) (evs : list event),
    copy_with_retries 3 src dst 2 0.5%float false w
    = Done ((false, Some "error"), w')
    /\ trace w' = trace w ++ evs
    /\ copies evs = 3%nat
    /\ List.length (waits evs) = 2%nat.
Proof.
  intros src dst w.
  apply (retry_exhaustion 3 src dst 2 0.5%float false w).
  - lia.
  - simpl. lia.
  - intros k _. eexists. split; reflexivity.
  - reflexivity.
Defined.

(** C2 as stated fails for an infinite delay ([--retry-delay inf]): after
    the first failed attempt the engine waits without end, so it makes
    one attempt, not [retries + 1], and never returns Failed. *)
Lemma endless_wait_no_exhaustion :
  let src := Path_of_string "/src/a.txt" in
  let dst := Path_of_string "/out/txt/a.txt" in
  let w := mkWorld [] (fun _ => Some (mkExn OSError "disk error")) 0 [] in
  (exists w' : World,
      copy_with_retries 3 src dst 2 infinity false w = Blocked w'
      /\ trace w' = [EvCopy src dst; EvSleep infinity])
  /\ ~ exists (fuel : nat) (r : outcome) (w' : World),
        copy_with_retries fuel src dst 2 infinity false w = Done (r, w').
Proof.
  intros src dst w. split.
  - eexists. split; reflexivity.
  - intros (fuel & r & w' & H). destruct fuel as [|fuel]; [discriminate|].
    vm_compute in H. discriminate H.
Qed.

(** C3. With [skip_locked] set, a copy attempt that raises a locked-file
    error ends the engine at once with [(False, "locked")]: the attempt is
    the last event, no wait follows, and neither [retries] nor the attempt
    counter nor the delay is looked at. This holds at the first attempt
    of [copy_with_retries] and at any later round of its loop. *)
Theorem skip_locked_short_circuit (fuel : nat) (src dst : Path) (retries : Z)
    (delay : float) (attempt : Z) (backoff : float) (w : World) (exc : exn) :
  faults w (clock w) = Some exc -> _is_locked_error exc = true ->
  let w' := tick (emit (EvCopy src dst) w) in
  copy_with_retries (S fuel) src dst retries delay true w
  = Done ((false, Some "locked"), w')
  /\ copy_with_retries_loop (S fuel) src dst retries true attempt backoff w
     = Done ((false, Some "locked"), w')
  /\ trace w' = trace w ++ [EvCopy src dst]
  /\ copies [EvCopy src dst] = 1%nat
  /\ waits [EvCopy src dst] = [].
Proof.
  intros Hf Hl w'. unfold copy_with_retries. simpl.
  rewrite (copy2_raises src dst w exc Hf), Hl. simpl.
  repeat split.
Qed.

Lemma skip_locked_short_circuit_witness :
  let src := Path_of_string "/src/a.txt" in
  let dst := Path_of_string "/out/txt/a.txt" in
  let exc := mkExn PermissionError
    "[WinError 32] The process cannot access the file because it is being used by another process" in
  let w := mkWorld [] (fun _ => Some exc) 0 [] in
  copy_with_retries 1 src dst 5 0.5%float true w
  = Done ((false, Some "locked"), tick (emit (EvCopy src dst) w)).
Proof.
  intros src dst exc w.
  exact (proj1 (skip_locked_short_circuit 0 src dst 5 0.5%float 0%Z 0%float w exc
                  eq_refl eq_refl)).
Defined.

(** C4. With [retries=2] and [retry_delay=1.0], a copy that fails on its
    first two attempts (neither a locked file to skip) and succeeds on the
    third makes three attempts, with a wait of 1.0 and then of 2.0
    between them, and returns [(True, None)]. *)
Theorem backoff_schedule (fuel : nat) (src dst : Path) (skip_locked : bool)
    (w : World) (e1 e2 : exn) :
  (2 < fuel)%nat ->
  faults w (clock w) = Some e1 ->
  faults w (S (clock w)) = Some e2 ->
  faults w (S (S (clock w))) = None ->
  _is_locked_error e1 && skip_locked = false ->
  _is_locked_error e2 && skip_locked = false ->
  let evs := [EvCopy src dst; EvSleep 1; EvCopy src dst; EvSleep 2;
              EvCopy src dst] in
  exists w' : World,
    copy_with_retries fuel src dst 2 1%float skip_locked w
    = Done ((true, None), w')
    /\ trace w' = trace w ++ evs
    /\ copies evs = 3%nat
    /\ waits evs = [1%float; 2%float]
    /\ exists_ (fs w') dst = true.
Proof.
  intros Hfuel H1 H2 H3 L1 L2 evs.
  destruct fuel as [|[|[|fuel]]]; try lia.
  unfold copy_with_retries.
  change (py_max 0 1) with 1%float.
  cbn [copy_with_retries_loop].
  rewrite (copy2_raises src dst w e1 H1), L1.
  change (0 + 1 >? 2)%Z with false. cbv iota.
  rewrite sleep_ends by reflexivity.
  rewrite (copy2_raises src dst _ e2) by exact H2. rewrite L2.
  change (0 + 1 + 1 >? 2)%Z with false. cbv iota.
  change (1 * 2)%float with 2%float.
  rewrite sleep_ends by reflexivity.
  rewrite copy2_succeeds by exact H3.
  eexists. split; [reflexivity|]. repeat split.
  - simpl. now rewrite <- !app_assoc.
  - simpl. unfold add_entry.
    destruct (exists_ (fs w) dst) eqn:E; [exact E|].
    unfold exists_. clear. induction (fs w) as [|[q k] l IH]; simpl.
    + now rewrite (proj2 (Path_eqb_eq dst dst) eq_refl).
    + destruct (Path_eqb q dst); [reflexivity | exact IH].
Qed.

Lemma backoff_schedule_witness :
  let src := Path_of_string "/src/a.txt" in
  let dst := Path_of_string "/out/txt/a.txt" in
  let e := mkExn OSError "I/O error" in
  let w := mkWorld [] (fun k => if (k <? 2)%nat then Some e else None) 0 [] in
  exists w' : World,
    copy_with_retries 3 src dst 2 1%float false w = Done ((true, None), w')
    /\ trace w'
       = [EvCopy src dst; EvSleep 1; EvCopy src dst; EvSleep 2; EvCopy src dst].
Proof.
  intros src dst e w.
  destruct (backoff_schedule 3 src dst false w e e) as (w' & Hrun & Htr & _);
    try reflexivity; [lia|].
  exists w'. split; [exact Hrun | exact Htr].
Defined.

(** ** The backoff delays *)

Section Backoff.
Local Open Scope float_scope.

Lemma leb_zero_not_ltb (d : float) : (d <=? 0) = true -> (0 <? d) = false.
Proof.
  rewrite leb_spec, ltb_spec. change (Prim2SF 0) with (S754_zero false).
  destruct (Prim2SF d) as [s|s| |s m e]; try destruct s;
    try reflexivity; discriminate.
Qed.

Lemma ltb_zero_asym (d : float) : (0 <? d) = true -> (d <? 0) = false.
Proof.
  rewrite !ltb_spec. change (Prim2SF 0) with (S754_zero false).
  destruct (Prim2SF d) as [s|s| |s m e]; try destruct s;
    try reflexivity; discriminate.
Qed.

(** Doubling keeps the sign: a delay that is not negative stays so, also
    when it overflows to infinity. *)
Lemma double_not_negative (b : float) :
  (b <? 0) = false -> (b * 2 <? 0) = false.
Proof.
  rewrite !ltb_spec, mul_spec. change (Prim2SF 0) with (S754_zero false).
  change (Prim2SF 2) with (S754_finite false 4503599627370496 (-51)).
  destruct (Prim2SF b) as [s|s| |s m e]; try destruct s;
    try reflexivity; try discriminate.
  intros _. unfold SF64mul, SFmul, binary_round_aux. simpl xorb.
  destruct (shr_fexp _ _ _ _ _) as [mrs e'].
  destruct (shr_fexp _ _ _ _ _) as [mrs' e''].
  destruct (shr_m mrs'); try reflexivity.
  destruct (_ <=? _)%Z; reflexivity.
Qed.

Lemma py_max_zero_not_negative (d : float) : (py_max 0 d <? 0) = false.
Proof.
  unfold py_max. destruct (0 <? d) eqn:E.
  - now apply ltb_zero_asym.
  - reflexivity.
Qed.

Lemma py_max_zero_clamps (d : float) : (d <=? 0) = true -> py_max 0 d = 0.
Proof.
  intros H. unfold py_max. now rewrite (leb_zero_not_ltb d H).
Qed.

Lemma backoffs_length (b : float) (n : nat) : List.length (backoffs b n) = n.
Proof. revert b. induction n as [|n IH]; intros b; simpl; [|rewrite IH]; reflexivity. Qed.

Lemma backoffs_head (b d : float) (n : nat) :
  nth_error (backoffs b n) 0 = Some d -> d = b.
Proof. destruct n; simpl; congruence. Qed.

Lemma backoffs_doubling (b : float) (n k : nat) (x y : float) :
  nth_error (backoffs b n) k = Some x ->
  nth_error (backoffs b n) (S k) = Some y -> y = x * 2.
Proof.
  revert b k. induction n as [|n IH]; intros b k Hx Hy;
    [destruct k; simpl in Hx; discriminate|].
  destruct k as [|k].
  - simpl in Hx. injection Hx as <-. simpl in Hy.
    now apply (backoffs_head _ _ n).
  - simpl in Hx, Hy. now apply (IH (b * 2) k).
Qed.

Lemma backoffs_zero (n : nat) (d : float) : In d (backoffs 0 n) -> d = 0.
Proof.
  induction n as [|n IH]; simpl; [contradiction|].
  change (0 * 2) with 0. intros [H|H]; [now symmetry | now apply IH].
Qed.

Lemma backoffs_not_negative (b : float) (n : nat) (d : float) :
  (b <? 0) = false -> In d (backoffs b n) -> (d <? 0) = false.
Proof.
  revert b. induction n as [|n IH]; intros b Hb; simpl; [contradiction|].
  intros [<-|H]; [assumption|].
  apply (IH (b * 2)); [now apply double_not_negative | assumption].
Qed.

Lemma doubled_zero (n : nat) : doubled 0 n = 0.
Proof. induction n as [|n IH]; [reflexivity | exact IH]. Qed.

End Backoff.

(** C10. Whatever the initial delay [delay] (negative, zero, NaN,
    infinite, ...) and whatever the copy primitive does,
    [copy_with_retries] comes to its end, returning or staying in a wait
    without end, and its waits are these: the first is
    [max(0.0, delay)], each later one is the one before it times 2, and
    none is negative. When [delay <= 0] every wait is exactly 0, and the
    engine returns. *)
Theorem backoff_clamp (fuel : nat) (src dst : Path) (retries : Z)
    (delay : float) (skip_locked : bool) (w : World) :
  (Z.to_nat retries < fuel)%nat ->
  exists (w' : World) (evs : list event),
    ((exists r : outcome,
         copy_with_retries fuel src dst retries delay skip_locked w
         = Done (r, w'))
     \/ copy_with_retries fuel src dst retries delay skip_locked w
        = Blocked w')
    /\ trace w' = trace w ++ evs
    /\ (forall d : float,
          nth_error (waits evs) 0 = Some d ->
          d = if PrimFloat.ltb 0 delay then delay else 0%float)
    /\ (forall (k : nat) (x y : float),
          nth_error (waits evs) k = Some x ->
          nth_error (waits evs) (S k) = Some y -> y = (x * 2)%float)
    /\ (forall d : float, In d (waits evs) -> PrimFloat.ltb d 0 = false)
    /\ (PrimFloat.leb delay 0 = true ->
        (exists r : outcome,
            copy_with_retries fuel src dst retries delay skip_locked w
            = Done (r, w'))
        /\ forall d : float, In d (waits evs) -> d = 0%float).
Proof.
  intros Hfuel. unfold copy_with_retries.
  destruct (loop_ends src dst retries skip_locked (Z.to_nat retries) fuel
              0%Z (py_max 0 delay) w)
    as (w' & m & Hm & [[Hrun Htr] | (Hrun & Hlt & Htr & Hinf)]);
    [now rewrite Z.sub_0_r | assumption | |].
  - exists w', (retry_events src dst (py_max 0 delay) m).
    rewrite waits_retry_events.
    split; [now left|]. split; [exact Htr|]. repeat split.
    + intros d Hd. now apply (backoffs_head _ _ m).
    + intros k x y. apply backoffs_doubling.
    + intros d. apply backoffs_not_negative, py_max_zero_not_negative.
    + exact Hrun.
    + intros d. rewrite (py_max_zero_clamps delay H). apply backoffs_zero.
  - exists w', (stuck_events src dst (py_max 0 delay) m).
    rewrite waits_stuck_events.
    split; [now right|]. split; [exact Htr|]. repeat split.
    + intros d Hd. now apply (backoffs_head _ _ (S m)).
    + intros k x y. apply backoffs_doubling.
    + intros d. apply backoffs_not_negative, py_max_zero_not_negative.
    + exfalso. rewrite (py_max_zero_clamps delay H), doubled_zero in Hinf.
      discriminate Hinf.
    + intros d. rewrite (py_max_zero_clamps delay H). apply backoffs_zero.
Qed.

(** A negative delay and a copy that always fails: all waits are 0. *)
Lemma backoff_clamp_witness :
  let src := Path_of_string "/src/a.txt" in
  let dst := Path_of_string "/out/txt/a.txt" in
  let w := mkWorld [] (fun _ => Some (mkExn OSError "disk error")) 0 [] in
  exists (r : outcome) (w' : World) (evs : list event),
    copy_with_retries 3 src dst 2 (-1.5)%float false w = Done (r, w')
    /\ trace w' = trace w ++ evs
    /\ waits (trace w') = [0%float; 0%float]
    /\ forall d : float, In d (waits evs) -> d = 0%float.
Proof.
  intros src dst w.
  destruct (backoff_clamp 3 src dst 2 (-1.5)%float false w)
    as (w' & evs & _ & Htr & _ & _ & _ & Hzero); [simpl; lia|].
  destruct (Hzero eq_refl) as ((r & Hrun) & Hz).
  exists r, w', evs. repeat split; try assumption.
  vm_compute in Hrun. injection Hrun as _ <-. reflexivity.
Defined.

(** ** File tasks *)

Section FileTask.

Lemma copies_app (a b : list event) : copies (a ++ b) = (copies a + copies b)%nat.
Proof. induction a as [|[] a IH]; simpl; auto. Qed.

Lemma copy_sources_app (a b : list event) :
  copy_sources (a ++ b) = copy_sources a ++ copy_sources b.
Proof. induction a as [|[] a IH]; simpl; auto. now rewrite IH. Qed.

(** The namer always returns when it is given one unit of fuel more than
    the file system has entries. *)
Lemma unique_target_path_returns (fs : FS) (dst_dir : Path) (filename : string) :
  _unique_target_path (S (List.length fs)) fs dst_dir filename <> None.
Proof.
  unfold _unique_target_path.
  destruct (exists_ fs (joinpath dst_dir filename)); cbn [negb];
    [|discriminate].
  apply unique_probe_ends.
  - apply stem_lacks_sep.
  - apply suffix_lacks_sep.
  - lia.
Qed.

Lemma to_thread_returns (dst_dir : Path) (filename : string) (w : World) :
  exists (r : result Path) (w' : World),
    to_thread_unique_target_path dst_dir filename w = Done (r, w')
    /\ trace w' = trace w
    /\ (forall exc, faults w (clock w) = Some exc -> r = Raise exc).
Proof.
  unfold to_thread_unique_target_path.
  destruct (faults w (clock w)) as [exc|] eqn:Hf.
  - eexists _, _. repeat split. now intros ? [= ->].
  - pose proof (unique_target_path_returns (fs w) dst_dir filename) as Hret.
    destruct (_unique_target_path _ _ _ _) as [target|]; [|contradiction].
    eexists _, _. repeat split. discriminate.
Qed.

Variables (src out_root : Path) (retries : Z) (delay : float)
          (skip_locked : bool).

(** When the loop returns, its value is one of the three outcomes and
    its events are copy attempts of this file, separated by waits. *)
Lemma loop_done (dst : Path) (fuel : nat) :
  forall (attempt : Z) (backoff : float) (w : World) (r : outcome) (w' : World),
    copy_with_retries_loop fuel src dst retries skip_locked attempt backoff w
    = Done (r, w') ->
    valid_outcome r
    /\ exists m : nat, trace w' = trace w ++ retry_events src dst backoff m.
Proof.
  unfold valid_outcome, Success, SkippedLocked, Failed.
  induction fuel as [|fuel IH]; intros attempt backoff w r w' H;
    [discriminate|].
  simpl in H. unfold copy2 in H.
  destruct (faults w (clock w)) as [exc|].
  - destruct (_is_locked_error exc && skip_locked).
    + injection H as <- <-. split; [auto|]. now exists 0%nat.
    + destruct (attempt + 1 >? retries)%Z.
      * injection H as <- <-. split; [auto|]. now exists 0%nat.
      * unfold sleep in H.
        destruct (PrimFloat.eqb backoff infinity); [discriminate|].
        apply IH in H as (Hv & m & Htr). split; [exact Hv|].
        exists (S m). rewrite Htr. simpl. now rewrite <- !app_assoc.
  - injection H as <- <-. split; [auto|]. now exists 0%nat.
Qed.

(** [copy_file] never raises: when it returns, it returns one of the
    three outcomes, and the only file it tried to copy is its own. *)
Lemma copy_file_done (fuel : nat) (sem : Z) (w : World) (r : outcome)
    (w' : World) :
  copy_file fuel src out_root sem retries delay skip_locked w = Done (r, w') ->
  valid_outcome r
  /\ exists evs : list event,
       trace w' = trace w ++ evs
       /\ forall p : Path, In p (copy_sources evs) -> p = src.
Proof.
  unfold copy_file, _mkdir_async.
  set (dst_dir := joinpath out_root (ext_folder_name src)).
  destruct (faults w (clock w)) as [exc|].
  - intros [= <- <-]. split; [right; right; reflexivity|].
    exists [EvMkdir dst_dir]. split; [reflexivity|]. intros p [].
  - match goal with |- context [to_thread_unique_target_path ?d ?f ?x] =>
      destruct (to_thread_returns d f x) as (t & w1 & Ht & Htr & _) end.
    rewrite Ht. destruct t as [target|exc].
    + destruct (sem <=? 0)%Z; [discriminate|]. intros H.
      apply loop_done in H as (Hv & m & Hm). split; [exact Hv|].
      exists (EvMkdir dst_dir :: retry_events src target (py_max 0 delay) m).
      split.
      * rewrite Hm, Htr. simpl. now rewrite <- app_assoc.
      * simpl. rewrite copy_sources_retry_events. apply repeat_spec.
    + intros [= <- <-]. split; [right; right; reflexivity|].
      exists [EvMkdir dst_dir]. split; [now rewrite Htr|]. intros p [].
Qed.

(** With a permit to take, waits that end and fuel for the retries,
    [copy_file] returns; a failure while the folder is made or the target
    is named gives Failed. *)
Lemma copy_file_returns (fuel : nat) (sem : Z) (w : World) :
  (1 <= sem)%Z -> (Z.to_nat retries < fuel)%nat ->
  finite_waits delay retries = true ->
  exists (r : outcome) (w' : World),
    copy_file fuel src out_root sem retries delay skip_locked w = Done (r, w')
    /\ (faults w (clock w) <> None -> r = Failed /\ copies (trace w') = copies (trace w))
    /\ (faults w (S (clock w)) <> None -> faults w (clock w) = None ->
        r = Failed /\ copies (trace w') = copies (trace w)).
Proof.
  intros Hsem Hfuel Hfin. unfold copy_file, _mkdir_async.
  set (dst_dir := joinpath out_root (ext_folder_name src)).
  destruct (faults w (clock w)) as [exc|] eqn:Hf.
  - eexists _, _. split; [reflexivity|]. split.
    + intros _. split; [reflexivity|]. simpl. rewrite copies_app. simpl. lia.
    + intros _ [=].
  - match goal with |- context [to_thread_unique_target_path ?d ?f ?x] =>
      destruct (to_thread_returns d f x) as (t & w1 & Ht & Htr & Hraise) end.
    rewrite Ht. destruct t as [target|exc].
    + replace (sem <=? 0)%Z with false by (symmetry; apply Z.leb_gt; lia).
      destruct (loop_total src target retries skip_locked (Z.to_nat retries)
                  fuel 0%Z (py_max 0 delay) w1)
        as (r & w' & m & Hrun & _);
        [now rewrite Z.sub_0_r | assumption | exact Hfin |].
      exists r, w'. split; [exact Hrun|]. split; [intros H; now elim H|].
      intros Hn _. simpl in Hraise.
      destruct (faults w (S (clock w))) as [exc|]; [|now elim Hn].
      discriminate (Hraise exc eq_refl).
    + eexists _, _. split; [reflexivity|]. split; [intros H; now elim H|].
      intros _ _. split; [reflexivity|]. rewrite Htr. simpl.
      rewrite copies_app. simpl. lia.
Qed.

End FileTask.

(** ** Discovery and the run *)

Section Orchestrator.

Variable Path_match : Path -> string -> result bool.

Lemma excluded_true (rel : string) (excludes : list string) :
  excluded Path_match rel excludes = Ok true ->
  matches_some Path_match rel excludes.
Proof.
  induction excludes as [|pat excludes IH]; simpl; [discriminate|].
  destruct (Path_match (Path_of_string rel) pat) as [[|]|exc] eqn:E.
  - intros _. exists pat. split; [now left | exact E].
  - intros H. destruct (IH H) as (q & Hq & Hm). exists q. split; [now right | exact Hm].
  - discriminate.
Qed.

Lemma excluded_false (rel : string) (excludes : list string) :
  excluded Path_match rel excludes = Ok false ->
  ~ matches_some Path_match rel excludes.
Proof.
  induction excludes as [|pat excludes IH]; simpl.
  - intros _ (q & [] & _).
  - destruct (Path_match (Path_of_string rel) pat) as [[|]|exc] eqn:E;
      try discriminate.
    intros H (q & [<-|Hq] & Hm); [congruence|].
    apply (IH H). now exists q.
Qed.

Lemma relative_to_below (root p : Path) :
  below root p = true ->
  relative_to p root
  = Ok (mkPath "" (skipn (List.length (tail root)) (tail p))).
Proof.
  unfold below, relative_to. intros H.
  apply andb_true_iff in H as [H _]. apply andb_true_iff in H as [Hr Hp].
  now rewrite String.eqb_sym, Hr, Hp.
Qed.

(** A file test moves the clock and nothing else. *)
Lemma iter_step_world (root : Path) (excludes : list string) (p : Path)
    (w : World) :
  snd (iter_step Path_match root excludes p w) = tick w.
Proof.
  unfold iter_step, Path_is_file.
  destruct (faults w (clock w)); [reflexivity|].
  destruct (is_file (fs w) p); [|reflexivity].
  destruct excludes; [reflexivity|].
  destruct (relative_to p root); [|reflexivity].
  now destruct (excluded _ _ _) as [[|]|].
Qed.

Lemma iter_entries_world (root : Path) (excludes : list string)
    (entries : list Path) :
  forall w : World,
    let w' := snd (iter_entries Path_match root excludes entries w) in
    fs w' = fs w /\ trace w' = trace w /\ faults w' = faults w
    /\ (clock w <= clock w' <= clock w + List.length entries)%nat.
Proof.
  induction entries as [|p entries IH]; intros w; simpl.
  - repeat split; lia.
  - pose proof (iter_step_world root excludes p w) as Hs.
    destruct (iter_step Path_match root excludes p w) as [[yielded|exc] w1];
      simpl in Hs; subst w1.
    + specialize (IH (tick w)).
      destruct (iter_entries Path_match root excludes entries (tick w))
        as [[files|exc] w2]; simpl in *;
        destruct IH as (H1 & H2 & H3 & H4); repeat split; auto; lia.
    + simpl. repeat split; lia.
Qed.

(** One entry below the root is yielded exactly when it is a regular
    file that no pattern matches. *)
Lemma iter_step_spec (root : Path) (excludes : list string) (p : Path)
    (w : World) (yielded : option Path) (w1 : World) :
  below root p = true ->
  iter_step Path_match root excludes p w = (Ok yielded, w1) ->
  (yielded = Some p /\ is_file (fs w) p = true
   /\ ~ matches_some Path_match (normalized_rel root p) excludes)
  \/ (yielded = None
      /\ (is_file (fs w) p = false
          \/ matches_some Path_match (normalized_rel root p) excludes)).
Proof.
  intros Hb. unfold iter_step, Path_is_file.
  destruct (faults w (clock w)); [discriminate|].
  destruct (is_file (fs w) p) eqn:Hf; [|intros [= <- _]; right; auto].
  destruct excludes as [|pat excludes].
  - intros [= <- _]. left. repeat split. intros (q & [] & _).
  - rewrite (relative_to_below root p Hb). fold (normalized_rel root p).
    destruct (excluded _ _ _) as [[|]|exc] eqn:E; try discriminate.
    + intros [= <- _]. right. split; [reflexivity|]. right.
      now apply excluded_true.
    + intros [= <- _]. left. repeat split. now apply excluded_false.
Qed.

Lemma iter_entries_spec (root : Path) (excludes : list string)
    (entries : list Path) :
  Forall (fun p => below root p = true) entries ->
  forall (w : World) (files : list Path) (w' : World),
    iter_entries Path_match root excludes entries w = (Ok files, w') ->
    forall p : Path,
      In p files <->
      In p entries /\ is_file (fs w) p = true
      /\ ~ matches_some Path_match (normalized_rel root p) excludes.
Proof.
  induction 1 as [|q entries Hq Hall IH]; intros w files w'; simpl.
  - intros [= <- _] p. simpl. tauto.
  - pose proof (iter_step_world root excludes q w) as Hw.
    destruct (iter_step Path_match root excludes q w) as [[yielded|exc] w1]
      eqn:Hs; [|discriminate].
    simpl in Hw. subst w1.
    destruct (iter_entries Path_match root excludes entries (tick w))
      as [[files'|exc] w2] eqn:Hi; [|discriminate].
    intros [= <- _] p. specialize (IH (tick w) files' w2 Hi p). simpl in IH.
    destruct (iter_step_spec root excludes q w yielded _ Hq Hs)
      as [(-> & Hf & Hn) | (-> & Hno)].
    + simpl. split.
      * intros [<-|Hin]; [auto|]. apply IH in Hin. tauto.
      * intros ([<-|Hin] & H); [now left|]. right. apply IH. tauto.
    + split.
      * intros Hin. apply IH in Hin. tauto.
      * intros ([<-|Hin] & Hf & Hn).
        -- destruct Hno as [Hno|Hno]; [congruence | contradiction].
        -- apply IH. tauto.
Qed.

Lemma excluded_closed (rel : string) (excludes : list string) :
  (forall (q : Path) (pat : string),
      In pat excludes -> exists b : bool, Path_match q pat = Ok b) ->
  excluded Path_match rel excludes = Ok (matches_any Path_match rel excludes).
Proof.
  unfold matches_any.
  induction excludes as [|pat excludes IH]; intros Hok; simpl; [reflexivity|].
  destruct (Hok (Path_of_string rel) pat (or_introl eq_refl)) as ([|] & ->);
    [reflexivity|].
  simpl. apply IH. intros q pat' Hin. apply Hok. now right.
Qed.

(** When no file test and no pattern raises, discovery is a filter of
    the entries listed. *)
Lemma iter_entries_closed (root : Path) (excludes : list string)
    (entries : list Path) :
  (forall (q : Path) (pat : string),
      In pat excludes -> exists b : bool, Path_match q pat = Ok b) ->
  Forall (fun p => below root p = true) entries ->
  forall w : World,
    tests_pass w (List.length entries) ->
    iter_entries Path_match root excludes entries w
    = (Ok (filter (fun p => is_file (fs w) p
                            && negb (matches_any Path_match
                                       (normalized_rel root p) excludes))
                  entries),
       Nat.iter (List.length entries) tick w).
Proof.
  intros Hok. induction 1 as [|p entries Hp Hall IH]; intros w Hpass;
    [reflexivity|].
  assert (Hnow : faults w (clock w) = None) by (apply Hpass; simpl; lia).
  assert (Hi : iter_entries Path_match root excludes entries (tick w)
               = (Ok (filter (fun p => is_file (fs w) p
                                       && negb (matches_any Path_match
                                                  (normalized_rel root p)
                                                  excludes))
                             entries),
                  Nat.iter (List.length entries) tick (tick w))).
  { apply (IH (tick w)). intros k Hk. simpl in Hk. apply (Hpass k).
    simpl. lia. }
  cbn [List.length]. rewrite Nat.iter_succ_r. cbn [iter_entries filter].
  unfold iter_step, Path_is_file. rewrite Hnow. cbv zeta.
  destruct (is_file (fs w) p); cbn [andb].
  - destruct excludes as [|pat excludes].
    + now rewrite Hi.
    + rewrite (relative_to_below root p Hp). fold (normalized_rel root p).
      rewrite (excluded_closed _ _ Hok).
      destruct (matches_any _ _ _); now rewrite Hi.
  - now rewrite Hi.
Qed.

(** A file test that raises stops discovery at once. *)
Lemma iter_entries_test_raises (root : Path) (excludes : list string)
    (p : Path) (entries : list Path) (w : World) (exc : exn) :
  faults w (clock w) = Some exc ->
  iter_entries Path_match root excludes (p :: entries) w
  = (Raise exc, tick w).
Proof.
  intros H. cbn [iter_entries]. unfold iter_step, Path_is_file.
  now rewrite H.
Qed.

Lemma matches_any_perm (rel : string) (excludes excludes' : list string) :
  Permutation excludes excludes' ->
  matches_any Path_match rel excludes = matches_any Path_match rel excludes'.
Proof.
  unfold matches_any.
  set (f := fun pat : string =>
              match Path_match (Path_of_string rel) pat with
              | Ok true => true
              | _ => false
              end).
  induction 1 as [|x l l' Hp IH|x y l|l l' l'' H1 IH1 H2 IH2]; simpl.
  - reflexivity.
  - now rewrite IH.
  - now destruct (f x), (f y).
  - congruence.
Qed.

Lemma rglob_below (fs : FS) (root : Path) :
  Forall (fun p => below root p = true) (rglob fs root).
Proof. apply Forall_forall. intros p Hp. now apply filter_In in Hp. Qed.

Variables (out_root : Path) (retries : Z) (delay : float)
          (skip_locked : bool).

(** When the tasks have all returned, there is one outcome per file, in
    order, and nothing but the files was copied. *)
Lemma gather_done (fuel : nat) (sem : Z) (files : list Path) :
  forall (w : World) (results : list outcome) (w' : World),
    gather fuel files out_root sem retries delay skip_locked w
    = Done (results, w') ->
    Forall2 (fun _ r => valid_outcome r) files results
    /\ exists evs : list event,
         trace w' = trace w ++ evs
         /\ forall p : Path, In p (copy_sources evs) -> In p files.
Proof.
  induction files as [|f files IH]; intros w results w'; simpl.
  - intros [= <- <-]. split; [constructor|]. exists [].
    split; [now rewrite app_nil_r | intros p []].
  - destruct (copy_file _ f _ _ _ _ _ w) as [[r w1]|wb|] eqn:Hf;
      try discriminate.
    destruct (gather _ files _ _ _ _ _ w1) as [[rs w2]|wb|] eqn:Hg;
      try discriminate.
    intros [= <- <-].
    apply copy_file_done in Hf as (Hv & evs1 & Ht1 & Hs1).
    apply IH in Hg as (Hall & evs2 & Ht2 & Hs2).
    split; [now constructor|]. exists (evs1 ++ evs2). split.
    + now rewrite Ht2, Ht1, app_assoc.
    + intros p Hp. rewrite copy_sources_app in Hp.
      apply in_app_or in Hp as [Hp|Hp]; [left; symmetry; auto | right; auto].
Qed.

(** With a permit to take, waits that end and fuel for the retries, all
    tasks return, whatever fails on the way. *)
Lemma gather_returns (fuel : nat) (sem : Z) (files : list Path) :
  (1 <= sem)%Z -> (Z.to_nat retries < fuel)%nat ->
  finite_waits delay retries = true ->
  forall w : World,
    exists (results : list outcome) (w' : World),
      gather fuel files out_root sem retries delay skip_locked w
      = Done (results, w').
Proof.
  intros Hsem Hfuel Hfin.
  induction files as [|f files IH]; intros w; simpl.
  - now eexists _, _.
  - destruct (copy_file_returns f out_root retries delay skip_locked fuel sem w
                Hsem Hfuel Hfin) as (r & w1 & Hf & _).
    rewrite Hf. destruct (IH w1) as (rs & w2 & Hg). rewrite Hg.
    now eexists _, _.
Qed.

(** Every outcome falls into exactly one of the three sums. *)
Lemma counts_partition (files : list Path) (results : list outcome) :
  Forall2 (fun _ r => valid_outcome r) files results ->
  (count_ok results + count_locked results + count_failed results
   = List.length files)%nat.
Proof.
  unfold count_ok, count_locked, count_failed.
  induction 1 as [|f r files results Hv Hall IH]; [reflexivity|].
  destruct Hv as [->|[->| ->]]; simpl; lia.
Qed.

End Orchestrator.

(** C6. A completed discovery yields a path exactly when it is a regular
    file below the root whose relative path, with separators normalized
    to ["/"], is matched by no pattern of the list (matching is
    [Path.match] of pathlib); discovery completes when no file test and
    no pattern raises; with no pattern, every regular file is yielded;
    and a run copies no file that a pattern matches and counts as many
    outcomes as discovery yielded files. *)
Theorem exclusion_filter (Path_match : Path -> string -> result bool)
    (src_root : Path) (excludes : list string) :
  (forall (w : World) (files : list Path) (w' : World),
      iter_files_recursive Path_match src_root excludes w = (Ok files, w') ->
      forall p : Path,
        In p files <->
        In p (rglob (fs w) src_root) /\ is_file (fs w) p = true
        /\ ~ matches_some Path_match (normalized_rel src_root p) excludes)
  /\ (forall w : World,
        (forall (q : Path) (pat : string),
            In pat excludes -> exists b : bool, Path_match q pat = Ok b) ->
        tests_pass w (List.length (rglob (fs w) src_root)) ->
        exists (files : list Path) (w' : World),
          iter_files_recursive Path_match src_root excludes w = (Ok files, w'))
  /\ (forall w : World,
        tests_pass w (List.length (rglob (fs w) src_root)) ->
        exists w' : World,
          iter_files_recursive Path_match src_root [] w
          = (Ok (filter (is_file (fs w)) (rglob (fs w) src_root)), w'))
  /\ (forall (fuel : nat) (out_root : Path) (max_workers retries : Z)
             (delay : float) (skip_locked : bool) (w : World)
             (r : result (option summary)) (w' : World),
        read_folder Path_match fuel src_root out_root max_workers retries delay
                    skip_locked excludes w = Done (r, w') ->
        exists evs : list event,
          trace w' = trace w ++ evs
          /\ (forall p : Path,
                In p (copy_sources evs) ->
                ~ matches_some Path_match (normalized_rel src_root p) excludes)
          /\ (forall s : summary,
                r = Ok (Some s) ->
                exists (files : list Path) (w1 : World),
                  iter_files_recursive Path_match src_root excludes
                    (set_fs (add_dirs out_root (fs w))
                            (tick (emit (EvMkdir out_root) w)))
                  = (Ok files, w1)
                  /\ (ok s + locked s + failed s = List.length files)%nat)).
Proof.
  split; [|split; [|split]].
  - intros w files w' H.
    apply (iter_entries_spec _ _ _ _ (rglob_below (fs w) src_root) _ _ _ H).
  - intros w Hok Hpass.
    eexists _, _.
    exact (iter_entries_closed Path_match src_root excludes _ Hok
             (rglob_below (fs w) src_root) w Hpass).
  - intros w Hpass.
    pose proof (iter_entries_closed Path_match src_root [] _
                  ltac:(intros q pat []) (rglob_below (fs w) src_root) w Hpass)
      as H.
    eexists. unfold iter_files_recursive. rewrite H. f_equal. f_equal.
    apply filter_ext. intros p. simpl. now rewrite andb_true_r.
  - intros fuel out_root max_workers retries delay skip_locked w r w'.
    unfold read_folder, _mkdir_async.
    destruct (negb (exists_ (fs w) src_root) || negb (is_dir (fs w) src_root)).
    { intros [= <- <-]. exists []. rewrite app_nil_r.
      repeat split; [intros p [] | discriminate]. }
    destruct (faults w (clock w)) as [exc|].
    { intros [= <- <-]. exists [EvMkdir out_root].
      repeat split; [intros p [] | discriminate]. }
    destruct (max_workers <? 0)%Z.
    { intros [= <- <-]. exists [EvMkdir out_root].
      repeat split; [intros p [] | discriminate]. }
    set (w1 := set_fs (add_dirs out_root (fs w))
                      (tick (emit (EvMkdir out_root) w))).
    pose proof (iter_entries_world Path_match src_root excludes
                  (rglob (fs w1) src_root) w1) as Hw.
    unfold iter_files_recursive.
    destruct (iter_entries Path_match src_root excludes
                (rglob (fs w1) src_root) w1) as [[files|exc] w2] eqn:Hfiles;
      simpl in Hw; destruct Hw as (Hfs & Htr & _).
    2:{ intros [= <- <-]. exists [EvMkdir out_root].
        repeat split; [exact Htr | intros p [] | discriminate]. }
    destruct files as [|f files].
    { intros [= <- <-]. exists [EvMkdir out_root].
      repeat split; [exact Htr | intros p [] | discriminate]. }
    destruct (gather _ _ _ _ _ _ _ _) as [[results w3]|wb|] eqn:Hg;
      try discriminate.
    intros [= <- <-].
    apply gather_done in Hg as (Hall & evs & Htr3 & Hsrc).
    exists (EvMkdir out_root :: evs). split; [|split].
    + rewrite Htr3, Htr. simpl. now rewrite <- app_assoc.
    + intros p Hp. simpl in Hp. apply Hsrc in Hp.
      apply (iter_entries_spec _ _ _ _ (rglob_below _ src_root) _ _ _ Hfiles)
        in Hp.
      tauto.
    + intros s [= <-]. exists (f :: files), w2. split; [reflexivity|].
      simpl ok. simpl locked. simpl failed.
      now apply counts_partition.
Qed.

(** The pattern ["skip/*"] keeps [skip/d.log] out of the files yielded. *)
Lemma exclusion_filter_witness :
  exists w' : World,
    iter_files_recursive PurePath_match (Path_of_string "/src") ["skip/*"]
                         example_world
    = (Ok [Path_of_string "/src/a.txt"; Path_of_string "/src/b.TXT";
           Path_of_string "/src/c"], w')
    /\ ~ In (Path_of_string "/src/skip/d.log")
            [Path_of_string "/src/a.txt"; Path_of_string "/src/b.TXT";
             Path_of_string "/src/c"].
Proof.
  eexists. split; [reflexivity|]. intros Hin.
  apply (proj1 (exclusion_filter PurePath_match (Path_of_string "/src") ["skip/*"])
               example_world _ _ eq_refl) in Hin.
  destruct Hin as (_ & _ & Hno). apply Hno.
  exists "skip/*". split; [now left | reflexivity].
Defined.

(** C7, amended. In a run with [max_workers >= 1] whose backoff waits
    all end (and with fuel for the retries), whatever the environment
    does: every file task returns, and returns one of Success,
    SkippedLocked and Failed; a failure while its folder is made or its
    target is named gives Failed; and once the source root has passed the
    check, the destination root is made and discovery has yielded files,
    the run logs its summary, with one outcome per file yielded and the
    three counts adding up to the number of files. *)
Theorem one_outcome_per_file (Path_match : Path -> string -> result bool)
    (fuel : nat) (src_root out_root : Path) (max_workers retries : Z)
    (delay : float) (skip_locked : bool) (excludes : list string) :
  (1 <= max_workers)%Z -> (Z.to_nat retries < fuel)%nat ->
  finite_waits delay retries = true ->
  (forall (src : Path) (w : World),
      exists (r : outcome) (w' : World),
        copy_file fuel src out_root max_workers retries delay skip_locked w
        = Done (r, w')
        /\ valid_outcome r
        /\ (faults w (clock w) <> None -> r = Failed)
        /\ (faults w (clock w) = None -> faults w (S (clock w)) <> None ->
            r = Failed))
  /\ (forall (w : World) (files : list Path) (w1 : World),
        exists_ (fs w) src_root = true -> is_dir (fs w) src_root = true ->
        faults w (clock w) = None ->
        iter_files_recursive Path_match src_root excludes
          (set_fs (add_dirs out_root (fs w)) (tick (emit (EvMkdir out_root) w)))
        = (Ok files, w1) ->
        files <> [] ->
        exists (results : list outcome) (w' : World),
          gather fuel files out_root max_workers retries delay skip_locked w1
          = Done (results, w')
          /\ Forall2 (fun _ r => valid_outcome r) files results
          /\ read_folder Path_match fuel src_root out_root max_workers retries
                         delay skip_locked excludes w
             = Done (Ok (Some (mkSummary (count_ok results)
                                         (count_locked results)
                                         (count_failed results))), w')
          /\ (count_ok results + count_locked results + count_failed results
              = List.length files)%nat).
Proof.
  intros Hsem Hfuel Hfin. split.
  - intros src w.
    destruct (copy_file_returns src out_root retries delay skip_locked fuel
                max_workers w Hsem Hfuel Hfin) as (r & w' & Hrun & Hmk & Hnm).
    exists r, w'. split; [exact Hrun|]. split; [|split].
    + now apply copy_file_done in Hrun.
    + intros H. now apply Hmk.
    + intros H0 H1. now apply Hnm.
  - intros w files w1 Hex Hdir Hf Hfiles Hne.
    destruct (gather_returns out_root retries delay skip_locked fuel
                max_workers files Hsem Hfuel Hfin w1) as (results & w' & Hg).
    pose proof (gather_done _ _ _ _ _ _ _ _ _ _ Hg) as (Hall & _).
    exists results, w'. split; [exact Hg|]. split; [exact Hall|]. split.
    + unfold read_folder, _mkdir_async. rewrite Hex, Hdir, Hf. simpl negb.
      simpl orb. cbv iota.
      replace (max_workers <? 0)%Z with false
        by (symmetry; apply Z.ltb_ge; lia).
      rewrite Hfiles.
      destruct files as [|f files]; [contradiction|].
      now rewrite Hg.
    + now apply counts_partition.
Qed.

(** Two file tasks fail before any copy, one succeeds: three outcomes. *)
Lemma one_outcome_per_file_witness :
  exists (results : list outcome) (w' : World),
    read_folder PurePath_match 4 (Path_of_string "/src") (Path_of_string "/out")
                4 3 0.5%float false ["skip/*"] faulty_world
    = Done (Ok (Some (mkSummary (count_ok results) (count_locked results)
                                (count_failed results))), w')
    /\ results = [Failed; Failed; Success]
    /\ (count_ok results + count_locked results + count_failed results = 3)%nat.
Proof.
  destruct (iter_files_recursive PurePath_match (Path_of_string "/src")
              ["skip/*"]
              (set_fs (add_dirs (Path_of_string "/out") (fs faulty_world))
                      (tick (emit (EvMkdir (Path_of_string "/out")) faulty_world))))
    as [files w1] eqn:Hfiles.
  pose proof Hfiles as Hf. vm_compute in Hf. injection Hf as <- Hw1.
  destruct (proj2 (one_outcome_per_file PurePath_match 4
                     (Path_of_string "/src") (Path_of_string "/out") 4 3
                     0.5%float false ["skip/*"] ltac:(lia) ltac:(simpl; lia)
                     eq_refl)
                  faulty_world _ w1
                  eq_refl eq_refl eq_refl Hfiles ltac:(discriminate))
    as (results & w' & Hg & _ & Hrun & Hsum).
  exists results, w'. split; [exact Hrun|]. split; [|exact Hsum].
  subst w1. vm_compute in Hg. now injection Hg as <- _.
Defined.

(** C7 as stated fails for [max_workers = 0]: the semaphore has no
    permit, every file task stays suspended at [async with sem], and the
    run never logs an outcome, whatever the fuel. *)
Lemma zero_workers_no_outcome :
  ~ exists (fuel : nat) (r : result (option summary)) (w' : World),
      read_folder PurePath_match fuel (Path_of_string "/src")
                  (Path_of_string "/out") 0 3 0.5%float false [] example_world
      = Done (r, w').
Proof.
  intros (fuel & r & w' & H). cbv in H. discriminate H.
Qed.

(** C8. When the source root does not exist or is not a directory,
    [read_folder] raises [FileNotFoundError] and leaves the world as it
    found it: the destination root is not made, no task is created, no
    copy is attempted, no outcome is counted. *)
Theorem preflight_fail_fast (Path_match : Path -> string -> result bool)
    (fuel : nat) (src_root out_root : Path) (max_workers retries : Z)
    (delay : float) (skip_locked : bool) (excludes : list string) (w : World) :
  exists_ (fs w) src_root = false \/ is_dir (fs w) src_root = false ->
  read_folder Path_match fuel src_root out_root max_workers retries delay
              skip_locked excludes w
  = Done (Raise (mkExn FileNotFoundError (Path_str src_root)), w)
  /\ forall (r : result (option summary)) (w' : World),
       read_folder Path_match fuel src_root out_root max_workers retries delay
                   skip_locked excludes w = Done (r, w') ->
       (forall s : option summary, r <> Ok s)
       /\ trace w' = trace w /\ fs w' = fs w /\ clock w' = clock w.
Proof.
  intros H.
  assert (E : read_folder Path_match fuel src_root out_root max_workers retries
                delay skip_locked excludes w
              = Done (Raise (mkExn FileNotFoundError (Path_str src_root)), w)).
  { unfold read_folder. destruct H as [-> | ->]; [reflexivity|].
    now rewrite orb_true_r. }
  split; [exact E|]. rewrite E. intros r w' [= <- <-].
  repeat split. discriminate.
Qed.

(** [/src/c] is a regular file, not a directory: the run stops at once. *)
Lemma preflight_fail_fast_witness :
  read_folder PurePath_match 4 (Path_of_string "/src/c") (Path_of_string "/out")
              4 3 0.5%float false [] example_world
  = Done (Raise (mkExn FileNotFoundError "/src/c"), example_world).
Proof.
  exact (proj1 (preflight_fail_fast PurePath_match 4 (Path_of_string "/src/c")
                  (Path_of_string "/out") 4 3 0.5%float false [] example_world
                  (or_intror eq_refl))).
Defined.

(** ** The concurrency bound *)

Section Permits.
Import Scheduler.

Variables (retries : Z) (delay : float) (skip_locked : bool).

Lemma copying_app (l m : list phase) :
  copying (l ++ m) = (copying l + copying m)%nat.
Proof. unfold copying. now rewrite filter_app, length_app. Qed.

(** A move keeps the sum of the free permits and of the tasks that hold
    one. *)
Lemma task_step_permits (n n' : nat) (ph ph' : phase) :
  task_step retries delay skip_locked n ph n' ph' ->
  (n' + copying [ph'] = n + copying [ph])%nat.
Proof. intros H. destruct H; unfold copying; simpl; lia. Qed.

Lemma step_permits (s s' : state) :
  step retries delay skip_locked s s' ->
  (permits s' + copying (tasks s') = permits s + copying (tasks s))%nat
  /\ List.length (tasks s') = List.length (tasks s).
Proof.
  intros H. destruct H as [n n' before after ph ph' Ht]. simpl.
  apply task_step_permits in Ht. split.
  - rewrite !copying_app.
    change (ph' :: after) with ([ph'] ++ after).
    change (ph :: after) with ([ph] ++ after).
    rewrite !copying_app. lia.
  - rewrite !length_app. reflexivity.
Qed.

Lemma copying_initial (files : nat) : copying (repeat Mkdir files) = 0%nat.
Proof. induction files as [|k IH]; [reflexivity | exact IH]. Qed.

Lemma reachable_permits (max_workers files : nat) (s : state) :
  reachable retries delay skip_locked max_workers files s ->
  (permits s + copying (tasks s) = max_workers)%nat
  /\ List.length (tasks s) = files.
Proof.
  induction 1 as [|s s' Hr [IH1 IH2] Hs].
  - simpl. rewrite copying_initial, repeat_length. lia.
  - apply step_permits in Hs as [H1 H2]. lia.
Qed.

End Permits.

(** ** The two views of a file task agree *)

Section Simulation.
Import Scheduler.

Variables (src out_root : Path) (retries : Z) (delay : float)
          (skip_locked : bool).

Lemma one_move (n n' : nat) (ph ph' : phase) :
  task_step retries delay skip_locked n ph n' ph' ->
  task_moves retries delay skip_locked (n, ph) (n', ph').
Proof. intros H. apply rt_step. exact H. Qed.

(** What the loop of [copy_with_retries] returns, a task in its copy
    phase can reach, giving its permit back. *)
Lemma loop_simulated (dst : Path) (fuel : nat) :
  forall (attempt : Z) (backoff : float) (w : World) (r : outcome)
         (w' : World) (n : nat),
    copy_with_retries_loop fuel src dst retries skip_locked attempt backoff w
    = Done (r, w') ->
    task_moves retries delay skip_locked
               (n, Copying attempt backoff) (S n, Returned r).
Proof.
  induction fuel as [|fuel IH]; intros attempt backoff w r w' n H;
    [discriminate|].
  simpl in H. unfold copy2 in H.
  destruct (faults w (clock w)) as [exc|].
  - destruct (_is_locked_error exc && skip_locked) eqn:Hl.
    + injection H as <- _. apply one_move. now apply (copy_locked _ _ _ _ _ _ exc).
    + destruct (attempt + 1 >? retries)%Z eqn:Hgt.
      * injection H as <- _. apply one_move.
        now apply (copy_exhausted _ _ _ _ _ _ exc).
      * unfold sleep in H.
        destruct (PrimFloat.eqb backoff infinity) eqn:Hinf; [discriminate|].
        eapply rt_trans; [apply one_move, (copy_retried _ _ _ _ _ _ exc Hl Hgt)|].
        eapply rt_trans; [apply one_move, woke_up; exact Hinf|].
        exact (IH _ _ _ _ _ n H).
  - injection H as <- _. apply one_move. apply copy_done.
Qed.

(** What [copy_file] returns when run on its own, the task of the
    interleaved run can reach from its start, with the permits as it
    found them. *)
Lemma copy_file_simulated (fuel : nat) (sem : Z) (w : World) (r : outcome)
    (w' : World) (n : nat) :
  copy_file fuel src out_root sem retries delay skip_locked w = Done (r, w') ->
  task_moves retries delay skip_locked (S n, Mkdir) (S n, Returned r).
Proof.
  unfold copy_file, _mkdir_async.
  destruct (faults w (clock w)) as [exc|].
  - intros [= <- _]. apply one_move. now apply mkdir_raised.
  - match goal with |- context [to_thread_unique_target_path ?d ?f ?x] =>
      destruct (to_thread_unique_target_path d f x) as [[[target|exc] w1]| |]
    end; try discriminate.
    + destruct (sem <=? 0)%Z; [discriminate|]. intros H.
      eapply rt_trans; [apply one_move, mkdir_done|].
      eapply rt_trans; [apply one_move, naming_done|].
      eapply rt_trans; [apply one_move, permit_taken|].
      exact (loop_simulated _ _ _ _ _ _ _ n H).
    + intros [= <- _].
      eapply rt_trans; [apply one_move, mkdir_done|].
      apply one_move. now apply naming_raised.
Qed.

End Simulation.

(** C9. In every state a run with [max_workers] permits and [files] file
    tasks goes through, the free permits and the tasks in their copy
    phase add up to [max_workers], so at most [max_workers] copies are in
    progress at once, however many files there are. A task takes its
    permit only after its folder is made and its target is named: those
    two moves need no permit and leave the permits as they are, also when
    none is free, while entering the copy phase needs a free permit. *)
Theorem concurrency_bound (retries : Z) (delay : float) (skip_locked : bool)
    (max_workers files : nat) (s : Scheduler.state) :
  Scheduler.reachable retries delay skip_locked max_workers files s ->
  (Scheduler.copying (Scheduler.tasks s) <= max_workers)%nat
  /\ (Scheduler.permits s + Scheduler.copying (Scheduler.tasks s)
      = max_workers)%nat
  /\ List.length (Scheduler.tasks s) = files
  /\ (forall n : nat,
        Scheduler.task_step retries delay skip_locked
                            n Scheduler.Mkdir n Scheduler.Naming
        /\ Scheduler.task_step retries delay skip_locked
                               n Scheduler.Naming n Scheduler.Waiting)
  /\ (forall (n n' : nat) (ph ph' : Scheduler.phase),
        Scheduler.task_step retries delay skip_locked n ph n' ph' ->
        Scheduler.in_copy_phase ph = false ->
        Scheduler.in_copy_phase ph' = true ->
        ph = Scheduler.Waiting /\ n = S n').
Proof.
  intros H. apply reachable_permits in H as [H1 H2].
  split; [lia|]. split; [exact H1|]. split; [exact H2|]. split.
  - intros n. split; constructor.
  - intros n n' ph ph' Hs Hout Hin.
    destruct Hs; simpl in Hout, Hin; try discriminate. now split.
Qed.

(** the state before the last move: [n] permits and the task [ph]
    between [before] and [after] *)
Ltac moved_from n before ph after :=
  apply (Scheduler.reach_step _ _ _ _ _
           (Scheduler.mkState n (before ++ ph :: after)));
  [| apply (Scheduler.step_task _ _ _ n _ before after ph); constructor].

(** Two permits and three files: two tasks copy, the third waits; its
    folder was made and its target named while no permit was free. *)
Lemma concurrency_bound_witness :
  let busy := Scheduler.Copying 0 (py_max 0 0.5) in
  let s := Scheduler.mkState 0 [busy; busy; Scheduler.Waiting] in
  Scheduler.reachable 3 0.5%float false 2 3 s
  /\ (Scheduler.copying (Scheduler.tasks s) <= 2)%nat.
Proof.
  intros busy s.
  assert (R : Scheduler.reachable 3 0.5%float false 2 3 s).
  { unfold s.
    moved_from 0%nat [busy; busy] Scheduler.Naming (@nil Scheduler.phase).
    moved_from 0%nat [busy; busy] Scheduler.Mkdir (@nil Scheduler.phase).
    moved_from 1%nat [busy] Scheduler.Waiting [Scheduler.Mkdir].
    moved_from 1%nat [busy] Scheduler.Naming [Scheduler.Mkdir].
    moved_from 1%nat [busy] Scheduler.Mkdir [Scheduler.Mkdir].
    moved_from 2%nat (@nil Scheduler.phase) Scheduler.Waiting
               [Scheduler.Mkdir; Scheduler.Mkdir].
    moved_from 2%nat (@nil Scheduler.phase) Scheduler.Naming
               [Scheduler.Mkdir; Scheduler.Mkdir].
    moved_from 2%nat (@nil Scheduler.phase) Scheduler.Mkdir
               [Scheduler.Mkdir; Scheduler.Mkdir].
    apply Scheduler.reach_initial. }
  split; [exact R|].
  exact (proj1 (concurrency_bound 3 0.5%float false 2 3 s R)).
Defined.

(** ** The scenario of the whole *)

(** [a.txt], [b.TXT], [c] and the excluded [skip/d.log], four workers,
    nothing fails: three files are copied, into [txt] and
    [no_extension], and the summary counts 3, 0 and 0. *)
Example end_to_end :
  match read_folder PurePath_match 4 (Path_of_string "/src")
                    (Path_of_string "/out") 4 3 0.5%float false ["skip/*"]
                    example_world with
  | Done (r, w') =>
      r = Ok (Some (mkSummary 3 0 0))
      /\ copy_sources (trace w')
         = [Path_of_string "/src/a.txt"; Path_of_string "/src/b.TXT";
            Path_of_string "/src/c"]
      /\ is_file (fs w') (Path_of_string "/out/txt/a.txt") = true
      /\ is_file (fs w') (Path_of_string "/out/txt/b.TXT") = true
      /\ is_file (fs w') (Path_of_string "/out/no_extension/c") = true
      /\ exists_ (fs w') (Path_of_string "/out/log/d.log") = false
  | _ => False
  end.
Proof. vm_compute. repeat split. Qed.

(** * Further properties of the code *)

(** ** The retry/backoff engine, whatever the environment *)

Section EngineBounds.

Variables (src dst : Path) (retries : Z) (skip_locked : bool).

(** The round at which the loop reports a locked file is one whose
    exception is classified as locked, and the flag is set. *)
Lemma loop_locked (fuel : nat) :
  forall (attempt : Z) (backoff : float) (w w' : World),
    copy_with_retries_loop fuel src dst retries skip_locked attempt backoff w
    = Done (SkippedLocked, w') ->
    skip_locked = true
    /\ exists (exc : exn) (k : nat),
         (clock w <= k)%nat /\ faults w k = Some exc
         /\ _is_locked_error exc = true.
Proof.
  unfold SkippedLocked.
  induction fuel as [|fuel IH]; intros attempt backoff w w' H; [discriminate|].
  simpl in H. unfold copy2 in H.
  destruct (faults w (clock w)) as [exc|] eqn:Hf; [|discriminate].
  destruct (_is_locked_error exc && skip_locked) eqn:Hl.
  - apply andb_true_iff in Hl as [Hl ->]. split; [reflexivity|].
    exists exc, (clock w). auto.
  - destruct (attempt + 1 >? retries)%Z; [discriminate|].
    unfold sleep in H. destruct (PrimFloat.eqb backoff infinity); [discriminate|].
    apply IH in H as (Hs & exc' & k & Hk & Hf' & Hl'). split; [exact Hs|].
    exists exc', k. simpl in Hk, Hf'. repeat split; try assumption. lia.
Qed.

(** The round at which the loop reports success is one the environment
    let succeed, and the destination exists from then on. *)
Lemma loop_success (fuel : nat) :
  forall (attempt : Z) (backoff : float) (w w' : World),
    copy_with_retries_loop fuel src dst retries skip_locked attempt backoff w
    = Done (Success, w') ->
    (exists k : nat, (clock w <= k)%nat /\ faults w k = None)
    /\ exists_ (fs w') dst = true.
Proof.
  unfold Success.
  induction fuel as [|fuel IH]; intros attempt backoff w w' H; [discriminate|].
  simpl in H. unfold copy2 in H.
  destruct (faults w (clock w)) as [exc|] eqn:Hf.
  - destruct (_is_locked_error exc && skip_locked); [discriminate|].
    destruct (attempt + 1 >? retries)%Z; [discriminate|].
    unfold sleep in H. destruct (PrimFloat.eqb backoff infinity); [discriminate|].
    apply IH in H as ((k & Hk & Hf') & He). split; [|exact He].
    exists k. simpl in Hk, Hf'. split; [lia | assumption].
  - injection H as <-. split; [now exists (clock w)|].
    simpl. unfold add_entry.
    destruct (exists_ (fs w) dst) eqn:E; [exact E|].
    unfold exists_. clear. induction (fs w) as [|[q k] l IHl]; simpl.
    + now rewrite (proj2 (Path_eqb_eq dst dst) eq_refl).
    + destruct (Path_eqb q dst); [reflexivity | exact IHl].
Qed.

(** The events of a run that returns: the attempts copy to [dst], no
    folder is made, and the last event is an attempt. *)
Lemma retry_events_shape (b : float) (m : nat) :
  copy_targets (retry_events src dst b m) = repeat dst (S m)
  /\ made_dirs (retry_events src dst b m) = []
  /\ forall ev : event, last (retry_events src dst b m) ev = EvCopy src dst.
Proof.
  revert b. induction m as [|m IH]; intros b; [now repeat split|].
  destruct (IH (b * 2)%float) as (Ht & Hd & Hl). simpl.
  rewrite Ht, Hd. repeat split. intros ev. rewrite <- (Hl ev).
  now destruct m.
Qed.

(** The events of a run that stays in a wait: the last event is the wait,
    after as many doublings as there were waits before it. *)
Lemma stuck_events_shape (b : float) (m : nat) :
  copy_sources (stuck_events src dst b m) = repeat src (S m)
  /\ copy_targets (stuck_events src dst b m) = repeat dst (S m)
  /\ made_dirs (stuck_events src dst b m) = []
  /\ forall ev : event,
       last (stuck_events src dst b m) ev = EvSleep (doubled b m).
Proof.
  revert b. induction m as [|m IH]; intros b; [now repeat split|].
  destruct (IH (b * 2)%float) as (Hs & Ht & Hd & Hl). simpl.
  rewrite Hs, Ht, Hd. repeat split. intros ev. rewrite <- (Hl ev).
  now destruct m.
Qed.

End EngineBounds.

(** X1. Whatever the copy primitive does, [copy_with_retries] makes at
    least one and at most [max(retries, 0) + 1] attempts, all of them
    copies of [src] to [dst], and makes no folder. Either it returns one
    of the three outcomes, having waited once between two attempts, never
    before the first nor after the last, so that its last event is an
    attempt; or it stays in a wait without end after its last attempt,
    having made at most [retries] attempts, and that wait is infinite.
    When none of the [retries] waits [max(0.0, delay) * 2^k] is infinite,
    it returns. *)
Theorem attempts_bounded (fuel : nat) (src dst : Path) (retries : Z)
    (delay : float) (skip_locked : bool) (w : World) :
  (Z.to_nat retries < fuel)%nat ->
  exists (w' : World) (evs : list event),
    trace w' = trace w ++ evs
    /\ (1 <= copies evs <= Z.to_nat retries + 1)%nat
    /\ copy_sources evs = repeat src (copies evs)
    /\ copy_targets evs = repeat dst (copies evs)
    /\ made_dirs evs = []
    /\ ((exists r : outcome,
            copy_with_retries fuel src dst retries delay skip_locked w
            = Done (r, w')
            /\ valid_outcome r)
        /\ List.length (waits evs) = (copies evs - 1)%nat
        /\ (forall ev : event, last evs ev = EvCopy src dst)
        \/ copy_with_retries fuel src dst retries delay skip_locked w
           = Blocked w'
           /\ (copies evs <= Z.to_nat retries)%nat
           /\ List.length (waits evs) = copies evs
           /\ exists b : float,
                (forall ev : event, last evs ev = EvSleep b)
                /\ PrimFloat.eqb b infinity = true)
    /\ (finite_waits delay retries = true ->
        exists r : outcome,
          copy_with_retries fuel src dst retries delay skip_locked w
          = Done (r, w')).
Proof.
  intros Hfuel. unfold copy_with_retries.
  destruct (loop_ends src dst retries skip_locked (Z.to_nat retries) fuel
              0%Z (py_max 0 delay) w)
    as (w' & m & Hm & [[(r & Hrun) Htr] | (Hrun & Hlt & Htr & Hinf)]);
    [now rewrite Z.sub_0_r | assumption | |].
  - exists w', (retry_events src dst (py_max 0 delay) m).
    destruct (retry_events_shape src dst (py_max 0 delay) m) as (Ht & Hd & Hl).
    rewrite copies_retry_events, waits_retry_events, copy_sources_retry_events,
      backoffs_length.
    split; [exact Htr|]. split; [lia|]. split; [reflexivity|].
    split; [exact Ht|]. split; [exact Hd|]. split.
    + left. split; [|split; [lia | exact Hl]].
      exists r. split; [exact Hrun | now apply loop_done in Hrun].
    + intros _. now exists r.
  - exists w', (stuck_events src dst (py_max 0 delay) m).
    destruct (stuck_events_shape src dst (py_max 0 delay) m)
      as (Hs & Ht & Hd & Hl).
    rewrite copies_stuck_events, waits_stuck_events, backoffs_length.
    split; [exact Htr|]. split; [lia|]. split; [exact Hs|].
    split; [exact Ht|]. split; [exact Hd|]. split.
    + right. split; [exact Hrun|]. split; [lia|]. split; [reflexivity|].
      exists (doubled (py_max 0 delay) m). split; [exact Hl | exact Hinf].
    + intros Hfin.
      destruct (loop_total src dst retries skip_locked (Z.to_nat retries) fuel
                  0%Z (py_max 0 delay) w)
        as (r & w2 & _ & Hdone & _);
        [now rewrite Z.sub_0_r | assumption | exact Hfin |].
      rewrite Hrun in Hdone. discriminate Hdone.
Qed.

(** Two failed attempts with waits of 0.5 and 1.0, then a copy. *)
Lemma attempts_bounded_witness :
  let src := Path_of_string "/src/a.txt" in
  let dst := Path_of_string "/out/txt/a.txt" in
  let w := mkWorld [] (fun k => if (k <? 2)%nat
                                then Some (mkExn OSError "disk error")
                                else None) 0 [] in
  exists (w' : World) (evs : list event),
    trace w' = trace w ++ evs
    /\ (1 <= copies evs <= 4)%nat
    /\ exists r : outcome,
         copy_with_retries 4 src dst 3 0.5%float false w = Done (r, w').
Proof.
  intros src dst w.
  destruct (attempts_bounded 4 src dst 3 0.5%float false w)
    as (w' & evs & H1 & H2 & _ & _ & _ & _ & H3); [simpl; lia|].
  exists w', evs. split; [exact H1|]. split; [exact H2|].
  exact (H3 eq_refl).
Defined.

(** X2. With [retries <= 0] (zero or negative) the engine makes exactly
    one attempt and never waits: a failure that is not a skipped locked
    file is final at once. *)
Theorem no_retries_single_attempt (fuel : nat) (src dst : Path) (retries : Z)
    (delay : float) (skip_locked : bool) (w : World) :
  (retries <= 0)%Z ->
  let w1 := tick (emit (EvCopy src dst) w) in
  copy_with_retries (S fuel) src dst retries delay skip_locked w
  = match faults w (clock w) with
    | None => Done (Success, set_fs (add_entry dst File (fs w)) w1)
    | Some exc =>
        if _is_locked_error exc && skip_locked then Done (SkippedLocked, w1)
        else Done (Failed, w1)
    end.
Proof.
  intros Hr w1. unfold copy_with_retries. simpl. unfold copy2.
  destruct (faults w (clock w)) as [exc|]; [|reflexivity].
  destruct (_is_locked_error exc && skip_locked); [reflexivity|].
  replace (1 >? retries)%Z with true by (symmetry; apply Z.gtb_lt; lia).
  reflexivity.
Qed.

Lemma no_retries_single_attempt_witness :
  exists w' : World,
    copy_with_retries 1 (Path_of_string "/src/a.txt")
                      (Path_of_string "/out/txt/a.txt") (-2) 0.5%float true
                      (mkWorld [] (fun _ => Some (mkExn OSError "disk error")) 0 [])
    = Done (Failed, w')
    /\ copies (trace w') = 1%nat /\ waits (trace w') = [].
Proof.
  eexists. split.
  - exact (no_retries_single_attempt 0 (Path_of_string "/src/a.txt")
             (Path_of_string "/out/txt/a.txt") (-2) 0.5%float true
             (mkWorld [] (fun _ => Some (mkExn OSError "disk error")) 0 [])
             ltac:(lia)).
  - split; reflexivity.
Defined.

(** X3. [copy_with_retries] reports a locked file only when
    [skip_locked] is set and an attempt raised a [PermissionError] whose
    message names WinError 32 or, in any letter case, a process that
    cannot access the file: without the flag, or with other exceptions
    only, the outcome is never [(False, "locked")]. *)
Theorem locked_only_when_skipping (fuel : nat) (src dst : Path) (retries : Z)
    (delay : float) (skip_locked : bool) (w w' : World) :
  copy_with_retries fuel src dst retries delay skip_locked w
  = Done (SkippedLocked, w') ->
  skip_locked = true
  /\ exists (exc : exn) (k : nat),
       (clock w <= k)%nat /\ faults w k = Some exc
       /\ exn_cls exc = PermissionError
       /\ (Str.contains "WinError 32" (exn_msg exc) = true
           \/ Str.contains "process cannot access" (Str.lower (exn_msg exc))
              = true).
Proof.
  intros H. unfold copy_with_retries in H.
  apply loop_locked in H as (Hs & exc & k & Hk & Hf & Hl).
  split; [exact Hs|]. exists exc, k. repeat split; try assumption.
  - unfold _is_locked_error, isinstance_PermissionError in Hl.
    apply andb_true_iff in Hl as [Hc _].
    now destruct (exn_cls exc).
  - unfold _is_locked_error in Hl. apply andb_true_iff in Hl as [_ Hm].
    now apply orb_true_iff in Hm.
Qed.

Lemma locked_only_when_skipping_witness :
  let exc := mkExn PermissionError
               "The PROCESS CANNOT ACCESS the file: it is used by another process" in
  let w := mkWorld [] (fun k => if (k =? 0)%nat then Some (mkExn OSError "busy")
                                else Some exc) 0 [] in
  exists (exc' : exn) (k : nat),
    (clock w <= k)%nat /\ faults w k = Some exc'
    /\ exn_cls exc' = PermissionError
    /\ (Str.contains "WinError 32" (exn_msg exc') = true
        \/ Str.contains "process cannot access" (Str.lower (exn_msg exc'))
           = true).
Proof.
  intros exc w.
  set (ev := EvCopy (Path_of_string "/src/a.txt") (Path_of_string "/out/txt/a.txt")).
  exact (proj2 (locked_only_when_skipping 4 (Path_of_string "/src/a.txt")
                  (Path_of_string "/out/txt/a.txt") 3 0.5%float true w
                  (tick (emit ev (emit (EvSleep 0.5) (tick (emit ev w)))))
                  eq_refl)).
Defined.

(** X4. [copy_with_retries] returns [(True, None)] only when an attempt
    of the copy primitive returned without raising; the destination then
    exists. *)
Theorem success_means_copied (fuel : nat) (src dst : Path) (retries : Z)
    (delay : float) (skip_locked : bool) (w w' : World) :
  copy_with_retries fuel src dst retries delay skip_locked w
  = Done (Success, w') ->
  (exists k : nat, (clock w <= k)%nat /\ faults w k = None)
  /\ exists_ (fs w') dst = true.
Proof. intros H. unfold copy_with_retries in H. now apply loop_success in H. Qed.

Lemma success_means_copied_witness :
  exists_ (add_entry (Path_of_string "/out/txt/a.txt") File example_fs)
          (Path_of_string "/out/txt/a.txt") = true.
Proof.
  exact (proj2 (success_means_copied 1 (Path_of_string "/src/a.txt")
                  (Path_of_string "/out/txt/a.txt") 3 0.5%float false
                  example_world
                  (set_fs (add_entry (Path_of_string "/out/txt/a.txt") File
                                     example_fs)
                          (tick (emit (EvCopy (Path_of_string "/src/a.txt")
                                              (Path_of_string "/out/txt/a.txt"))
                                      example_world)))
                  eq_refl)).
Defined.

(** ** Names and extensions *)

Section Names.
Import Str StrFacts.
Local Open Scope string_scope.

(** A name has no dot, or splits at its last dot. *)
Lemma last_dot (s : string) :
  lacks "." s = true
  \/ exists pre post : string, s = pre ++ "." ++ post /\ lacks "." post = true.
Proof.
  induction s as [|a s [IH|(pre & post & -> & Hp)]].
  - now left.
  - destruct (Ascii.eqb a ".") eqn:E.
    + right. apply Ascii.eqb_eq in E as ->. now exists "", s.
    + left. simpl. now rewrite E, IH.
  - right. now exists (String a pre), post.
Qed.

Lemma stem_split (p : Path) (pre post : string) :
  name p = pre ++ "." ++ post -> lacks "." post = true ->
  stem p = if String.eqb pre "" || String.eqb post "" then name p else pre.
Proof.
  intros Hn Hp. unfold stem. rewrite Hn.
  change (pre ++ "." ++ post) with (pre ++ String "." post).
  rewrite rfind_last by assumption. unfold len, slice_to.
  rewrite length_append. simpl String.length.
  destruct pre as [|a pre]; [reflexivity|].
  destruct post as [|b post].
  - simpl String.eqb. simpl orb.
    match goal with |- context [(?x <? ?y - 1)%Z] =>
      replace (x <? y - 1)%Z with false
        by (symmetry; apply Z.ltb_ge; simpl String.length; lia) end.
    now rewrite andb_false_r.
  - simpl String.eqb. simpl orb.
    match goal with |- context [(?x <? ?y - 1)%Z] =>
      replace (x <? y - 1)%Z with true
        by (symmetry; apply Z.ltb_lt; simpl String.length; lia) end.
    match goal with |- context [(0 <? ?x)%Z] =>
      replace (0 <? x)%Z with true
        by (symmetry; apply Z.ltb_lt; simpl String.length; lia) end.
    simpl andb. cbv iota. rewrite Nat2Z.id. apply substring_take.
Qed.

Lemma stem_no_dot (p : Path) : lacks "." (name p) = true -> stem p = name p.
Proof. intros H. unfold stem. now rewrite (rfind_lacks _ _ H). Qed.

Lemma of_nat_lacks_dot (i : nat) : lacks "." (of_nat i) = true.
Proof.
  unfold of_nat, NilZero.string_of_uint.
  assert (H : forall d, lacks "." (NilEmpty.string_of_uint d) = true)
    by (induction d; simpl; auto).
  destruct (Nat.to_uint i) eqn:E; try reflexivity; rewrite <- E; apply H.
Qed.

Lemma name_single (x : string) : name (mkPath "" [x]) = x.
Proof. reflexivity. Qed.

(** The suffix of a numbered name is the suffix of the name, unless the
    name ends in a dot. *)
Lemma numbered_suffix (p q : Path) (i : nat) :
  (forall pre : string, name p <> pre ++ ".") ->
  name q = numbered (stem p) i (suffix p) ->
  suffix q = suffix p.
Proof.
  intros Hend Hq. unfold numbered in Hq.
  destruct (last_dot (name p)) as [Hno|(pre & post & Hn & Hp)].
  - rewrite (stem_no_dot p Hno), (suffix_no_dot p Hno) in *.
    apply suffix_no_dot. rewrite Hq, !lacks_append, Hno, of_nat_lacks_dot.
    reflexivity.
  - rewrite (stem_split p pre post Hn Hp), (suffix_split p pre post Hn Hp) in *.
    destruct pre as [|a pre].
    + simpl in Hq |- *. rewrite Hn in Hq. simpl in Hq.
      rewrite (suffix_split q "" (post ++ " (" ++ of_nat i ++ ")"));
        [reflexivity | exact Hq |].
      rewrite !lacks_append, Hp, of_nat_lacks_dot. reflexivity.
    + destruct post as [|b post].
      * exfalso. apply (Hend (String a pre)). exact Hn.
      * simpl String.eqb in Hq |- *. simpl orb in Hq |- *. cbv iota in Hq |- *.
        rewrite (suffix_split q (String a pre ++ " (" ++ of_nat i ++ ")")
                   (String b post)); [reflexivity | | exact Hp].
        rewrite Hq, !append_assoc. reflexivity.
Qed.

(** [p / s] ends in the last component of [s]. *)
Lemma last_app_nonempty (l m : list string) (d : string) :
  m <> [] -> last (l ++ m)%list d = last m d.
Proof.
  intros Hm. induction l as [|y l IH]; [reflexivity|].
  simpl. destruct (l ++ m)%list eqn:E; [|exact IH].
  apply app_eq_nil in E as [_ E]. contradiction.
Qed.

Lemma name_joinpath (dst_dir : Path) (s : string) :
  tail (Path_of_string s) <> [] ->
  name (joinpath dst_dir s) = name (Path_of_string s).
Proof.
  intros Ht. unfold joinpath.
  destruct (String.eqb (root (Path_of_string s)) ""); [|reflexivity].
  unfold name. simpl tail. now apply last_app_nonempty.
Qed.

Lemma ends_in_dot_spec (s : string) :
  ends_in_dot s = false -> forall pre : string, s <> pre ++ ".".
Proof.
  induction s as [|a s IH]; intros H pre E.
  - now destruct pre.
  - destruct pre as [|b pre]; simpl in E; injection E as -> E.
    + subst s. discriminate H.
    + destruct s as [|c s]; [now destruct pre|].
      apply (IH H pre E).
Qed.

Lemma same_name_same_folder (p q : Path) :
  suffix p = suffix q -> ext_folder_name p = ext_folder_name q.
Proof. unfold ext_folder_name. now intros ->. Qed.

End Names.

(** X5. Collision renaming keeps the extension: for a file name that
    does not end in a dot, whatever [_unique_target_path] returns has the
    suffix of the name, so [ext_folder_name] gives it the folder of the
    file it copies. *)
Theorem target_keeps_extension (fuel : nat) (fs : FS) (dst_dir : Path)
    (filename : string) (p : Path) :
  tail (Path_of_string filename) <> [] ->
  ends_in_dot (name (Path_of_string filename)) = false ->
  _unique_target_path fuel fs dst_dir filename = Some p ->
  suffix p = suffix (Path_of_string filename)
  /\ ext_folder_name p = ext_folder_name (Path_of_string filename).
Proof.
  intros Ht Hend H.
  pose proof (ends_in_dot_spec _ Hend) as Hdot. clear Hend.
  assert (Hs : suffix p = suffix (Path_of_string filename)).
  { unfold _unique_target_path in H.
    destruct (exists_ fs (joinpath dst_dir filename)); simpl negb in H;
      cbv iota in H.
    - apply unique_probe_found in H as (k & -> & _).
      apply (numbered_suffix _ _ (1 + k) Hdot).
      rewrite joinpath_numbered
        by (apply stem_lacks_sep || apply suffix_lacks_sep).
      unfold name. simpl tail. now rewrite last_last.
    - injection H as <-. unfold suffix.
      now rewrite (name_joinpath dst_dir filename Ht). }
  split; [exact Hs | now apply same_name_same_folder].
Qed.

Lemma target_keeps_extension_witness :
  let d := Path_of_string "/out/gz" in
  let p := joinpath d "archive.tar (1).gz" in
  suffix p = suffix (Path_of_string "archive.tar.gz")
  /\ ext_folder_name p = ext_folder_name (Path_of_string "archive.tar.gz").
Proof.
  intros d p.
  apply (target_keeps_extension 2 [(joinpath d "archive.tar.gz", File)] d
           "archive.tar.gz" p); [discriminate | reflexivity | reflexivity].
Defined.

(** ** Where the copies go *)

Section Layout.
Import Str StrFacts.
Local Open Scope string_scope.

(** A plain component (no separator, not empty, not ["."]) parses to
    itself. *)
Lemma Path_of_string_component (s : string) :
  lacks "/" s = true -> keep_part s = true ->
  Path_of_string s = mkPath "" [s].
Proof.
  intros H K. unfold Path_of_string, split.
  rewrite (split_aux_single _ _ _ H). simpl append. simpl filter. rewrite K.
  f_equal. destruct s as [|a s]; [reflexivity|].
  simpl in H. apply andb_true_iff in H as [Ha _]. apply negb_true_iff in Ha.
  unfold parse_root.
  destruct a as [[] [] [] [] [] [] [] []]; try reflexivity; discriminate Ha.
Qed.

Lemma joinpath_component (dir : Path) (s : string) :
  lacks "/" s = true -> keep_part s = true ->
  joinpath dir s = mkPath (root dir) (tail dir ++ [s])%list.
Proof.
  intros H K. unfold joinpath. now rewrite (Path_of_string_component s H K).
Qed.

Lemma joinpath_child (dir : Path) (s : string) :
  lacks "/" s = true -> keep_part s = true -> child_of dir (joinpath dir s).
Proof.
  intros H K. rewrite (joinpath_component dir s H K).
  split; [reflexivity | now exists s].
Qed.

Lemma lower_ascii_sep (a : ascii) :
  Ascii.eqb (lower_ascii a) "/" = Ascii.eqb a "/".
Proof. destruct a as [[] [] [] [] [] [] [] []]; reflexivity. Qed.

Lemma lacks_sep_lower (s : string) : lacks "/" (lower s) = lacks "/" s.
Proof.
  induction s as [|a s IH]; simpl; [reflexivity|].
  now rewrite lower_ascii_sep, IH.
Qed.

Lemma lacks_lstrip (c d : ascii) (s : string) :
  lacks c s = true -> lacks c (lstrip d s) = true.
Proof.
  induction s as [|a s IH]; simpl; [reflexivity|]. intros H.
  destruct (Ascii.eqb a d); [|exact H].
  apply andb_true_iff in H as [_ H]. now apply IH.
Qed.

Lemma lstrip_keep_part (s : string) :
  String.eqb (lstrip "." s) "" = false -> keep_part (lstrip "." s) = true.
Proof.
  unfold keep_part. intros ->. simpl.
  induction s as [|a s IH]; simpl; [reflexivity|].
  destruct (Ascii.eqb a ".") eqn:E; [exact IH|].
  simpl. now rewrite E.
Qed.

(** The folder name is one plain component. *)
Lemma ext_folder_name_component (src : Path) :
  lacks "/" (name src) = true ->
  lacks "/" (ext_folder_name src) = true
  /\ keep_part (ext_folder_name src) = true.
Proof.
  intros H. unfold ext_folder_name.
  destruct (String.eqb (lstrip "." (lower (suffix src))) "") eqn:E.
  - split; reflexivity.
  - split; [|now apply lstrip_keep_part].
    apply lacks_lstrip. rewrite lacks_sep_lower. unfold suffix.
    destruct (_ && _); [now apply lacks_substring | reflexivity].
Qed.

(** What the namer returns for a plain component is right inside the
    folder, and free. *)
Lemma unique_target_path_child (fuel : nat) (fs : FS) (dst_dir : Path)
    (filename : string) (p : Path) :
  lacks "/" filename = true -> keep_part filename = true ->
  _unique_target_path fuel fs dst_dir filename = Some p ->
  child_of dst_dir p /\ exists_ fs p = false.
Proof.
  intros H K. unfold _unique_target_path.
  destruct (exists_ fs (joinpath dst_dir filename)) eqn:E; simpl negb;
    cbv iota.
  - intros Hp. apply unique_probe_found in Hp as (k & -> & Hfree & _).
    split; [|exact Hfree].
    rewrite joinpath_numbered
      by (apply stem_lacks_sep || apply suffix_lacks_sep).
    split; [reflexivity | now eexists].
  - intros [= <-]. split; [now apply joinpath_child | exact E].
Qed.

End Layout.

(** ** The folders a file task adds *)

Section Folder.

Lemma folders_app (fs1 fs2 : FS) :
  folders (fs1 ++ fs2) = (folders fs1 ++ folders fs2)%list.
Proof. unfold folders. now rewrite filter_app, map_app. Qed.

(** Adding an entry keeps the entries there are. *)
Lemma add_entry_added (p : Path) (k : kind) (fs : FS) :
  exists added : FS,
    add_entry p k fs = (fs ++ added)%list
    /\ folders added
       = if exists_ fs p then []
         else match k with Dir => [p] | File => [] end.
Proof.
  unfold add_entry. destruct (exists_ fs p).
  - exists []. now rewrite app_nil_r.
  - exists [(p, k)]. split; [reflexivity | now destruct k].
Qed.

Lemma prefixes_snoc (done todo : list string) (x : string) :
  prefixes done (todo ++ [x])%list
  = (prefixes done todo ++ [done ++ todo ++ [x]])%list.
Proof.
  revert done. induction todo as [|y todo IH]; intros done; simpl;
    [reflexivity|].
  rewrite IH, <- app_assoc. reflexivity.
Qed.

(** Folders that exist are left as they are. *)
Lemma add_existing (r : string) (l : list (list string)) (fs : FS) :
  forallb (fun t => exists_ fs (mkPath r t)) l = true ->
  fold_left (fun fs t => add_entry (mkPath r t) Dir fs) l fs = fs.
Proof.
  induction l as [|t l IH]; simpl; [reflexivity|]. intros H.
  apply andb_true_iff in H as [H1 H2].
  replace (add_entry (mkPath r t) Dir fs) with fs
    by (unfold add_entry; now rewrite H1).
  exact (IH H2).
Qed.

(** Below a folder that exists, with all the folders above it,
    [mkdir(parents=True)] makes the one folder it is called for. *)
Lemma add_dirs_child (dir : Path) (x : string) (fs : FS) :
  dirs_exist fs dir = true ->
  add_dirs (mkPath (root dir) (tail dir ++ [x])) fs
  = add_entry (mkPath (root dir) (tail dir ++ [x])) Dir fs.
Proof.
  intros H. unfold add_dirs. cbn [root tail].
  rewrite prefixes_snoc, fold_left_app. cbn [fold_left app].
  now rewrite (add_existing _ _ _ H).
Qed.

Variables (src : Path) (retries : Z) (skip_locked : bool).

(** The loop changes the file system only when it succeeds, and then by
    the one entry of its destination. *)
Lemma loop_fs (dst : Path) (fuel : nat) :
  forall (attempt : Z) (backoff : float) (w : World) (r : outcome) (w' : World),
    copy_with_retries_loop fuel src dst retries skip_locked attempt backoff w
    = Done (r, w') ->
    fs w' = if fst r then add_entry dst File (fs w) else fs w.
Proof.
  induction fuel as [|fuel IH]; intros attempt backoff w r w' H;
    [discriminate|].
  simpl in H. unfold copy2 in H.
  destruct (faults w (clock w)) as [exc|].
  - destruct (_is_locked_error exc && skip_locked).
    + now injection H as <- <-.
    + destruct (attempt + 1 >? retries)%Z.
      * now injection H as <- <-.
      * unfold sleep in H.
        destruct (PrimFloat.eqb backoff infinity); [discriminate|].
        apply IH in H. exact H.
  - now injection H as <- <-.
Qed.

End Folder.

(** X6. A file task stays in one folder. Where [out_root] and the
    folders above it exist, what [copy_file] adds to the file system
    holds at most one folder, [out_root / ext_folder_name(src)], which is
    right inside [out_root]: that folder when it was missing and [mkdir]
    did not raise, none otherwise; every entry there was stays. The task
    calls [mkdir] once, for that folder, and every copy attempt it makes
    is from [src] to one and the same target, which is right inside that
    folder and did not exist when it was named. *)
Theorem copy_file_stays_in_folder (fuel : nat) (src out_root : Path) (sem : Z)
    (retries : Z) (delay : float) (skip_locked : bool) (w : World)
    (r : outcome) (w' : World) :
  Str.lacks "/" (name src) = true -> keep_part (name src) = true ->
  dirs_exist (fs w) out_root = true ->
  copy_file fuel src out_root sem retries delay skip_locked w = Done (r, w') ->
  let dst_dir := joinpath out_root (ext_folder_name src) in
  child_of out_root dst_dir
  /\ (exists added : FS,
        fs w' = (fs w ++ added)%list
        /\ folders added
           = match faults w (clock w) with
             | Some _ => []
             | None => if exists_ (fs w) dst_dir then [] else [dst_dir]
             end)
  /\ exists evs : list event,
       trace w' = trace w ++ evs
       /\ made_dirs evs = [dst_dir]
       /\ copy_sources evs = repeat src (copies evs)
       /\ exists target : Path,
            copy_targets evs = repeat target (copies evs)
            /\ (copies evs <> 0%nat ->
                child_of dst_dir target
                /\ exists_ (add_dirs dst_dir (fs w)) target = false).
Proof.
  intros Hn Hk Hroot H dst_dir.
  destruct (ext_folder_name_component src Hn) as [Hf1 Hf2].
  split; [now apply joinpath_child|].
  assert (Hdir : add_dirs dst_dir (fs w) = add_entry dst_dir Dir (fs w)).
  { unfold dst_dir. rewrite (joinpath_component _ _ Hf1 Hf2).
    now apply add_dirs_child. }
  destruct (add_entry_added dst_dir Dir (fs w)) as (dirs & Ed & Fd).
  unfold copy_file, _mkdir_async in H. fold dst_dir in H.
  destruct (faults w (clock w)) as [exc|].
  { injection H as _ <-. split.
    - exists []. now rewrite app_nil_r.
    - exists [EvMkdir dst_dir].
      repeat split. exists dst_dir. split; [reflexivity | now intros []]. }
  unfold to_thread_unique_target_path in H. simpl in H.
  destruct (faults w (S (clock w))) as [exc|].
  { injection H as _ <-. split.
    - exists dirs. simpl. rewrite Hdir. now split.
    - exists [EvMkdir dst_dir].
      repeat split. exists dst_dir. split; [reflexivity | now intros []]. }
  destruct (_unique_target_path _ _ dst_dir (name src)) as [target|] eqn:Ht;
    [|discriminate].
  destruct (sem <=? 0)%Z; [discriminate|].
  unfold copy_with_retries in H.
  pose proof (loop_fs src retries skip_locked target fuel _ _ _ _ _ H) as Hfs.
  apply loop_done in H as (_ & m & Htr). simpl in Htr, Hfs. split.
  - destruct (add_entry_added target File (add_dirs dst_dir (fs w)))
      as (file & Ef & Ff).
    destruct (fst r).
    + exists (dirs ++ file)%list. rewrite Hfs, Ef, Hdir, Ed, <- app_assoc.
      split; [reflexivity|]. rewrite folders_app, Fd, Ff.
      destruct (exists_ (add_dirs dst_dir (fs w)) target);
        now rewrite app_nil_r.
    + exists dirs. rewrite Hfs, Hdir. now split.
  - exists (EvMkdir dst_dir :: retry_events src target (py_max 0 delay) m).
    split; [rewrite Htr; now rewrite <- app_assoc|].
    destruct (retry_events_shape src target (py_max 0 delay) m)
      as (Hc & Hd & _).
    simpl. rewrite Hd, copies_retry_events, copy_sources_retry_events.
    repeat split. exists target. split; [exact Hc|]. intros _.
    now apply (unique_target_path_child _ _ _ _ _ Hn Hk Ht).
Qed.

(** [/out] exists, [/out/txt] does not: the task for [b.TXT] adds that
    one folder. *)
Lemma copy_file_stays_in_folder_witness :
  let w := set_fs (add_dirs (Path_of_string "/out") example_fs) example_world in
  child_of (Path_of_string "/out") (Path_of_string "/out/txt")
  /\ exists (r : outcome) (w' : World) (added : FS),
       copy_file 4 (Path_of_string "/src/b.TXT") (Path_of_string "/out") 4
                 3 0.5%float false w = Done (r, w')
       /\ fs w' = (fs w ++ added)%list
       /\ folders added = [Path_of_string "/out/txt"].
Proof.
  intros w.
  destruct (copy_file 4 (Path_of_string "/src/b.TXT") (Path_of_string "/out") 4
                      3 0.5%float false w) as [[r w']| |] eqn:E;
    try (vm_compute in E; discriminate E).
  destruct (copy_file_stays_in_folder 4 (Path_of_string "/src/b.TXT")
              (Path_of_string "/out") 4 3 0.5%float false w r w'
              eq_refl eq_refl eq_refl E) as (Hc & (added & Hfs & Hd) & _).
  split; [exact Hc|]. exists r, w', added.
  split; [reflexivity|]. split; [exact Hfs | exact Hd].
Defined.

(** ** How a run ends *)

(** X8. A run that raises, or that finds no file, has copied nothing:
    besides the check of the source root it has at most made the
    destination root. So the exceptions of [read_folder] all come before
    the first file task, and once tasks run the run does not raise. *)
Theorem raising_run_copies_nothing
    (Path_match : Path -> string -> result bool) (fuel : nat)
    (src_root out_root : Path) (max_workers retries : Z) (delay : float)
    (skip_locked : bool) (excludes : list string) (w : World)
    (r : result (option summary)) (w' : World) :
  read_folder Path_match fuel src_root out_root max_workers retries delay
              skip_locked excludes w = Done (r, w') ->
  (forall s : summary, r <> Ok (Some s)) ->
  (trace w' = trace w /\ fs w' = fs w)
  \/ (trace w' = trace w ++ [EvMkdir out_root]
      /\ (fs w' = fs w \/ fs w' = add_dirs out_root (fs w))).
Proof.
  unfold read_folder, _mkdir_async. intros H Hr.
  destruct (negb (exists_ (fs w) src_root) || negb (is_dir (fs w) src_root)).
  { injection H as _ <-. now left. }
  destruct (faults w (clock w)) as [exc|].
  { injection H as _ <-. right. split; [reflexivity | now left]. }
  destruct (max_workers <? 0)%Z.
  { injection H as _ <-. right. split; [reflexivity | now right]. }
  set (w1 := set_fs (add_dirs out_root (fs w))
                    (tick (emit (EvMkdir out_root) w))) in H.
  pose proof (iter_entries_world Path_match src_root excludes
                (rglob (fs w1) src_root) w1) as Hw.
  unfold iter_files_recursive in H.
  destruct (iter_entries Path_match src_root excludes
              (rglob (fs w1) src_root) w1) as [[[|f files]|exc] w2];
    simpl in Hw; destruct Hw as (Hfs & Htr & _).
  - injection H as _ <-. right. split; [exact Htr | right; exact Hfs].
  - destruct (gather _ _ _ _ _ _ _ _) as [[results w3]|wb|]; try discriminate.
    injection H as <- _. now elim (Hr _ eq_refl).
  - injection H as _ <-. right. split; [exact Htr | right; exact Hfs].
Qed.

(** An empty pattern makes pathlib refuse the match: the run raises
    after the destination root is made, and copies nothing. *)
Lemma raising_run_copies_nothing_witness :
  exists w' : World,
    read_folder PurePath_match 4 (Path_of_string "/src") (Path_of_string "/out")
                4 3 0.5%float false [""] example_world
    = Done (Raise (mkExn ValueError "empty pattern"), w')
    /\ ((trace w' = trace example_world /\ fs w' = fs example_world)
        \/ (trace w' = trace example_world ++ [EvMkdir (Path_of_string "/out")]
            /\ (fs w' = fs example_world
                \/ fs w' = add_dirs (Path_of_string "/out") (fs example_world)))).
Proof.
  eexists. split; [reflexivity|].
  apply (raising_run_copies_nothing PurePath_match 4 (Path_of_string "/src")
           (Path_of_string "/out") 4 3 0.5%float false [""] example_world
           (Raise (mkExn ValueError "empty pattern")));
    [reflexivity | discriminate].
Defined.

Lemma or_empty_id (l : list string) : Cli.or_empty l = l.
Proof. now destruct l. Qed.

(** X9. The exit status of [main] is 0 or 1, and it is 1 exactly when
    the source root fails the check, or making the destination root
    raises, or [max_workers] is negative, or discovery raises, because a
    file test is refused or a pattern makes the match raise: what happens
    to the files (failed or skipped copies) never changes it. A file
    test that is refused, the first one say, gives 1. (The check of the
    source root and the listing of the tree are taken not to raise.) *)
Theorem exit_status (Path_match : Path -> string -> result bool) (fuel : nat)
    (args : Cli.Args) (w : World) (code : Z) (w' : World) :
  Cli.main Path_match fuel args w = Done (code, w') ->
  let w1 := set_fs (add_dirs (Cli.output args) (fs w))
                   (tick (emit (EvMkdir (Cli.output args)) w)) in
  (code = 0%Z \/ code = 1%Z)
  /\ (code = 1%Z <->
      exists_ (fs w) (Cli.source args) = false
      \/ is_dir (fs w) (Cli.source args) = false
      \/ faults w (clock w) <> None
      \/ (Cli.max_workers args < 0)%Z
      \/ exists (exc : exn) (w2 : World),
           iter_files_recursive Path_match (Cli.source args)
                                (Cli.exclude_glob args) w1
           = (Raise exc, w2))
  /\ (exists_ (fs w) (Cli.source args) = true ->
      is_dir (fs w) (Cli.source args) = true ->
      faults w (clock w) = None ->
      rglob (fs w1) (Cli.source args) <> [] ->
      faults w (S (clock w)) <> None ->
      code = 1%Z).
Proof.
  intros H w1. revert H.
  unfold Cli.main, read_folder, _mkdir_async. rewrite or_empty_id.
  destruct (exists_ (fs w) (Cli.source args)) eqn:Hex; simpl negb; simpl orb;
    cbv iota.
  2:{ intros [= <- _]. split; [now right|]. split; [split; auto | auto]. }
  destruct (is_dir (fs w) (Cli.source args)) eqn:Hdir; simpl negb; cbv iota.
  2:{ intros [= <- _]. split; [now right|]. split; [split; auto | auto]. }
  destruct (faults w (clock w)) as [exc|] eqn:Hf.
  { intros [= <- _]. split; [now right|]. split; [|auto].
    split; [|reflexivity]. intros _. right. right. left. discriminate. }
  destruct (Cli.max_workers args <? 0)%Z eqn:Hneg.
  { intros [= <- _]. split; [now right|]. split; [|auto].
    split; [|reflexivity]. intros _. do 3 right. left. now apply Z.ltb_lt. }
  apply Z.ltb_ge in Hneg. fold w1.
  assert (Hfirst : rglob (fs w1) (Cli.source args) <> [] ->
                   faults w (S (clock w)) <> None ->
                   exists (exc : exn) (w2 : World),
                     iter_files_recursive Path_match (Cli.source args)
                                          (Cli.exclude_glob args) w1
                     = (Raise exc, w2)).
  { intros Hne Hraise. unfold iter_files_recursive.
    destruct (rglob (fs w1) (Cli.source args)) as [|p entries];
      [now elim Hne|].
    destruct (faults w (S (clock w))) as [exc|] eqn:Hs; [|now elim Hraise].
    exists exc, (tick w1). now apply iter_entries_test_raises. }
  destruct (iter_files_recursive _ _ _ w1) as [[[|f files]|exc] w2] eqn:Hit.
  - intros [= <- _]. split; [now left|]. split.
    + split; [discriminate|].
      intros [H|[H|[H|[H|(exc & w3 & H)]]]]; try discriminate; try lia.
      now elim H.
    + intros _ _ _ Hne Hraise.
      destruct (Hfirst Hne Hraise) as (exc & w3 & H). discriminate H.
  - destruct (gather _ _ _ _ _ _ _ _) as [[results w3]|wb|]; try discriminate.
    intros [= <- _]. split; [now left|]. split.
    + split; [discriminate|].
      intros [H|[H|[H|[H|(exc & w4 & H)]]]]; try discriminate; try lia.
      now elim H.
    + intros _ _ _ Hne Hraise.
      destruct (Hfirst Hne Hraise) as (exc & w4 & H). discriminate H.
  - intros [= <- _]. split; [now right|]. split; [|auto].
    split; [|reflexivity]. intros _. do 4 right. now exists exc, w2.
Qed.

(** The test of the first entry is refused: exit 1, and nothing is
    copied. *)
Lemma exit_status_witness :
  let args := Cli.mkArgs (Path_of_string "/src") (Path_of_string "/out") 4
                         "INFO" 3 0.5%float false ["skip/*"] in
  let w := mkWorld example_fs
             (fun k => if (k =? 1)%nat
                       then Some (mkExn PermissionError "Permission denied")
                       else None) 0 [] in
  exists w' : World,
    Cli.main PurePath_match 4 args w = Done (1%Z, w')
    /\ copies (trace w') = 0%nat.
Proof.
  intros args w.
  destruct (Cli.main PurePath_match 4 args w) as [[code w']| |] eqn:E;
    try (vm_compute in E; discriminate E).
  pose proof (proj2 (proj2 (exit_status PurePath_match 4 args w code w' E))
                eq_refl eq_refl eq_refl ltac:(discriminate)
                ltac:(discriminate)) as Hcode.
  exists w'. subst code. split; [reflexivity|].
  vm_compute in E. now injection E as <-.
Defined.

Lemma default_max_workers_bounds (cpu_count : option Z) :
  (forall n : Z, cpu_count = Some n -> (0 <= n)%Z) ->
  (5 <= Cli.default_max_workers cpu_count <= 32)%Z.
Proof.
  intros H. unfold Cli.default_max_workers, Cli.cpu_count_or_4.
  destruct cpu_count as [n|]; [|lia].
  specialize (H n eq_refl). destruct (n =? 0)%Z eqn:E; [lia|].
  apply Z.eqb_neq in E. lia.
Qed.

(** X10. Started with the two positional arguments only, on a machine
    with any number of processors (or an unknown number), [main] gets
    between 5 and 32 workers and always comes to an exit status: the
    default configuration cannot leave the tasks waiting for a permit,
    whatever fails in the file system. *)
Theorem default_run_completes (Path_match : Path -> string -> result bool)
    (fuel : nat) (cpu_count : option Z) (source output : Path) (w : World) :
  (forall n : Z, cpu_count = Some n -> (0 <= n)%Z) ->
  (3 < fuel)%nat ->
  let args := Cli.defaults cpu_count source output in
  (5 <= Cli.max_workers args <= 32)%Z
  /\ exists (code : Z) (w' : World),
       Cli.main Path_match fuel args w = Done (code, w').
Proof.
  intros Hcpu Hfuel args.
  pose proof (default_max_workers_bounds cpu_count Hcpu) as Hb.
  split; [exact Hb|].
  unfold Cli.main, read_folder, _mkdir_async. simpl.
  destruct (negb (exists_ (fs w) source) || negb (is_dir (fs w) source));
    [now eexists _, _|].
  destruct (faults w (clock w)) as [exc|]; [now eexists _, _|].
  replace (Cli.default_max_workers cpu_count <? 0)%Z with false
    by (symmetry; apply Z.ltb_ge; lia).
  destruct (iter_files_recursive _ _ _ _) as [[[|f files]|exc] w2];
    try (now eexists _, _).
  match goal with |- context [gather ?a ?b ?c ?d ?e ?g ?h ?x] =>
    destruct (gather_returns c e g h a d b ltac:(lia) ltac:(simpl; lia)
                eq_refl x)
      as (results & w' & ->) end.
  now eexists _, _.
Qed.

Lemma default_run_completes_witness :
  exists (code : Z) (w' : World),
    Cli.main PurePath_match 4
             (Cli.defaults None (Path_of_string "/src") (Path_of_string "/out"))
             faulty_world = Done (code, w').
Proof.
  exact (proj2 (default_run_completes PurePath_match 4 None
                  (Path_of_string "/src") (Path_of_string "/out") faulty_world
                  ltac:(discriminate) ltac:(lia))).
Defined.

(** ** Discovery as a filter *)

(** X11. When no file test is refused and no pattern of the list makes
    the match raise, discovery is a filter of the traversal: it yields,
    in the order of the traversal, the regular files that no pattern
    matches; and the order of the patterns does not matter. *)
Theorem discovery_is_a_filter (Path_match : Path -> string -> result bool)
    (src_root : Path) (excludes : list string) (w : World) :
  (forall (q : Path) (pat : string),
      In pat excludes -> exists b : bool, Path_match q pat = Ok b) ->
  tests_pass w (List.length (rglob (fs w) src_root)) ->
  (exists w' : World,
      iter_files_recursive Path_match src_root excludes w
      = (Ok (filter (fun p => is_file (fs w) p
                              && negb (matches_any Path_match
                                         (normalized_rel src_root p) excludes))
                    (rglob (fs w) src_root)), w'))
  /\ forall excludes' : list string,
       Permutation excludes excludes' ->
       iter_files_recursive Path_match src_root excludes' w
       = iter_files_recursive Path_match src_root excludes w.
Proof.
  intros Hok Hpass. unfold iter_files_recursive. split.
  - eexists. apply iter_entries_closed; [exact Hok | apply rglob_below | exact Hpass].
  - intros excludes' Hperm.
    rewrite !iter_entries_closed; try apply rglob_below; try exact Hok;
      try exact Hpass.
    + f_equal. f_equal. apply filter_ext. intros p.
      now rewrite (matches_any_perm Path_match _ _ _ Hperm).
    + intros q pat Hin. apply Hok.
      now apply (Permutation_in _ (Permutation_sym Hperm)).
Qed.

Lemma discovery_is_a_filter_witness :
  (exists w' : World,
      iter_files_recursive PurePath_match (Path_of_string "/src")
                           ["*.txt"; "skip/*"] example_world
      = (Ok [Path_of_string "/src/b.TXT"; Path_of_string "/src/c"], w'))
  /\ iter_files_recursive PurePath_match (Path_of_string "/src")
                          ["skip/*"; "*.txt"] example_world
     = iter_files_recursive PurePath_match (Path_of_string "/src")
                            ["*.txt"; "skip/*"] example_world.
Proof.
  assert (Hok : forall (q : Path) (pat : string),
             In pat ["*.txt"; "skip/*"] ->
             exists b : bool, PurePath_match q pat = Ok b).
  { intros q pat [<-|[<-|[]]]; unfold PurePath_match; simpl;
      repeat match goal with |- context [if ?c then _ else _] => destruct c end;
      now eexists. }
  destruct (discovery_is_a_filter PurePath_match
              (Path_of_string "/src") ["*.txt"; "skip/*"] example_world Hok)
    as [(w' & H1) H2]; [intros k _; reflexivity|].
  split; [exists w'; rewrite H1; reflexivity|].
  apply H2. apply perm_swap.
Defined.

(** ** The interleaved run: progress and what it keeps *)

Section Interleaving.
Import Scheduler.

Variables (retries : Z) (delay : float) (skip_locked : bool).

Lemma doubled_succ (b : float) (n : nat) :
  doubled b (S n) = (doubled b n * 2)%float.
Proof.
  revert b. induction n as [|n IH]; intros b; [reflexivity|].
  change (doubled b (S (S n))) with (doubled (b * 2)%float (S n)).
  now rewrite IH.
Qed.

(** When the waits that may come all end, so does each of them. *)
Lemma doubled_finite (n : nat) :
  forall (b : float) (k : nat),
    all_finite (backoffs b n) = true -> (k < n)%nat ->
    PrimFloat.eqb (doubled b k) infinity = false.
Proof.
  induction n as [|n IH]; intros b k Hfin Hk; [lia|].
  apply all_finite_cons in Hfin as [Hb Hfin].
  destruct k as [|k]; [exact Hb|].
  apply (IH (b * 2)%float k Hfin). lia.
Qed.

(** A move keeps the delay of a task in step with its attempt counter. *)
Lemma task_step_delay (n n' : nat) (ph ph' : phase) :
  task_step retries delay skip_locked n ph n' ph' ->
  phase_delay retries delay ph -> phase_delay retries delay ph'.
Proof.
  unfold phase_delay.
  intros H. destruct H; intros Hd; auto.
  - split; [lia | reflexivity].
  - destruct Hd as [Ha Hb]. rewrite Z.gtb_ltb in *. apply Z.ltb_ge in H0.
    split; [lia|]. rewrite Hb. f_equal. lia.
  - destruct Hd as [Ha Hb]. split; [lia|].
    replace (Z.to_nat attempt) with (S (Z.to_nat attempt - 1)) by lia.
    now rewrite doubled_succ, Hb.
Qed.

Lemma reachable_delay (max_workers files : nat) (s : state) :
  reachable retries delay skip_locked max_workers files s ->
  Forall (phase_delay retries delay) (tasks s).
Proof.
  induction 1 as [|s s' Hr IH Hs].
  - simpl. apply Forall_forall. intros ph Hin.
    apply repeat_spec in Hin. now subst ph.
  - destruct Hs as [n n' before after ph ph' Ht]. simpl in *.
    apply Forall_app in IH as [Hb Ha]. apply Forall_app. split; [exact Hb|].
    inversion Ha as [|x l Hph Hafter]; subst.
    constructor; [|exact Hafter]. now apply (task_step_delay _ _ _ _ Ht).
Qed.

(** A task that needs no permit can move; one that sleeps wakes up,
    since its wait ends. *)
Lemma moves_freely_step (n : nat) (ph : phase) :
  finite_waits delay retries = true ->
  phase_delay retries delay ph ->
  moves_freely ph = true ->
  exists (n' : nat) (ph' : phase),
    task_step retries delay skip_locked n ph n' ph'.
Proof.
  intros Hfin Hd. destruct ph; try discriminate; intros _.
  - eexists _, _. apply mkdir_done.
  - eexists _, _. apply naming_done.
  - eexists _, _. apply copy_done.
  - eexists _, _. apply woke_up. destruct Hd as [Ha ->].
    apply (doubled_finite _ _ _ Hfin). lia.
Qed.

Lemma none_moves_freely (l : list phase) :
  existsb moves_freely l = false -> copying l = 0%nat.
Proof.
  unfold copying. induction l as [|ph l IH]; simpl; [reflexivity|].
  intros H. apply orb_false_iff in H as [Hp Hl].
  destruct ph; try discriminate Hp; simpl; auto.
Qed.

Lemma not_returned_waits (ph : phase) :
  moves_freely ph = false -> (forall r : outcome, ph <> Returned r) ->
  ph = Waiting.
Proof.
  destruct ph; try discriminate; intros _ H; [reflexivity|].
  now elim (H r).
Qed.

(** A move keeps what holds of each task. *)
Lemma task_step_ok (n n' : nat) (ph ph' : phase) :
  task_step retries delay skip_locked n ph n' ph' ->
  phase_ok retries ph -> phase_ok retries ph'.
Proof.
  unfold phase_ok, valid_outcome.
  intros H. destruct H; intros Hok; auto.
  - split; [lia | apply py_max_zero_not_negative].
  - destruct Hok as [Ha Hb]. split; [|exact Hb].
    rewrite Z.gtb_ltb in *. apply Z.ltb_ge in H0. lia.
  - destruct Hok as [Ha Hb]. split; [lia | now apply double_not_negative].
Qed.

Lemma reachable_ok (max_workers files : nat) (s : state) :
  reachable retries delay skip_locked max_workers files s ->
  Forall (phase_ok retries) (tasks s).
Proof.
  induction 1 as [|s s' Hr IH Hs].
  - simpl. apply Forall_forall. intros ph Hin.
    apply repeat_spec in Hin. now subst ph.
  - destruct Hs as [n n' before after ph ph' Ht]. simpl in *.
    apply Forall_app in IH as [Hb Ha]. apply Forall_app. split; [exact Hb|].
    inversion Ha as [|x l Hph Hafter]; subst.
    constructor; [|exact Hafter]. now apply (task_step_ok _ _ _ _ Ht).
Qed.

(** With no permit, the tasks can all come to wait for one. *)
Lemma all_waiting_reachable (files k : nat) :
  (k <= files)%nat ->
  reachable retries delay skip_locked 0 files
            (mkState 0 (repeat Waiting k ++ repeat Mkdir (files - k))).
Proof.
  induction k as [|k IH]; intros Hk.
  - rewrite Nat.sub_0_r. apply reach_initial.
  - specialize (IH ltac:(lia)).
    replace (files - k)%nat with (S (files - S k)) in IH by lia.
    simpl repeat in IH.
    assert (E : repeat Waiting (S k) ++ repeat Mkdir (files - S k)
                = repeat Waiting k ++ Waiting :: repeat Mkdir (files - S k)).
    { change (Waiting :: repeat Mkdir (files - S k))
        with ([Waiting] ++ repeat Mkdir (files - S k)).
      rewrite app_assoc. f_equal.
      change [Waiting] with (repeat Waiting 1).
      rewrite <- repeat_app. f_equal. lia. }
    rewrite E.
    eapply reach_step; [eapply reach_step; [exact IH|]|].
    + apply (step_task _ _ _ 0%nat 0%nat (repeat Waiting k) _ Mkdir Naming).
      apply mkdir_done.
    + apply (step_task _ _ _ 0%nat 0%nat (repeat Waiting k) _ Naming Waiting).
      apply naming_done.
Qed.

End Interleaving.

(** X12. With at least one permit, and when none of the [retries]
    waits [max(0.0, delay) * 2^k] is infinite, the interleaved run cannot
    get stuck: in every state it goes through, as long as a task has not
    returned, some task can move. (A task in a wait without end never
    moves, and keeps its permit.) *)
Theorem scheduler_progress (retries : Z) (delay : float) (skip_locked : bool)
    (max_workers files : nat) (s : Scheduler.state) :
  Scheduler.reachable retries delay skip_locked max_workers files s ->
  (1 <= max_workers)%nat ->
  finite_waits delay retries = true ->
  (exists ph : Scheduler.phase,
      In ph (Scheduler.tasks s)
      /\ forall r : outcome, ph <> Scheduler.Returned r) ->
  exists s' : Scheduler.state,
    Scheduler.step retries delay skip_locked s s'.
Proof.
  intros Hr Hn Hfin (ph & Hin & Hnot).
  pose proof (reachable_delay retries delay skip_locked _ _ _ Hr) as Hdel.
  apply reachable_permits in Hr as [Hsum _].
  destruct s as [n l]. simpl in *.
  destruct (existsb moves_freely l) eqn:E.
  - apply existsb_exists in E as (ph' & Hin' & Hm).
    pose proof (proj1 (Forall_forall _ _) Hdel ph' Hin') as Hd.
    apply in_split in Hin' as (before & after & ->).
    destruct (moves_freely_step retries delay skip_locked n ph' Hfin Hd Hm)
      as (n' & ph'' & Hs).
    eexists. apply (Scheduler.step_task _ _ _ _ _ before after _ _ Hs).
  - pose proof (none_moves_freely l E) as Hc.
    assert (Hw : ph = Scheduler.Waiting).
    { apply not_returned_waits; [|exact Hnot].
      destruct (moves_freely ph) eqn:Em; [|reflexivity].
      assert (existsb moves_freely l = true)
        by (apply existsb_exists; now exists ph).
      congruence. }
    subst ph. apply in_split in Hin as (before & after & ->).
    destruct n as [|n]; [lia|].
    eexists.
    apply (Scheduler.step_task _ _ _ _ _ before after _ _
             (Scheduler.permit_taken retries delay skip_locked n)).
Qed.

Lemma scheduler_progress_witness :
  let busy := Scheduler.Copying 0 (py_max 0 0.5) in
  let s := Scheduler.mkState 0 [busy; busy; Scheduler.Waiting] in
  exists s' : Scheduler.state, Scheduler.step 3 0.5%float false s s'.
Proof.
  intros busy s.
  apply (scheduler_progress 3 0.5%float false 2 3 s).
  - unfold s.
    moved_from 0%nat [busy; busy] Scheduler.Naming (@nil Scheduler.phase).
    moved_from 0%nat [busy; busy] Scheduler.Mkdir (@nil Scheduler.phase).
    moved_from 1%nat [busy] Scheduler.Waiting [Scheduler.Mkdir].
    moved_from 1%nat [busy] Scheduler.Naming [Scheduler.Mkdir].
    moved_from 1%nat [busy] Scheduler.Mkdir [Scheduler.Mkdir].
    moved_from 2%nat (@nil Scheduler.phase) Scheduler.Waiting
               [Scheduler.Mkdir; Scheduler.Mkdir].
    moved_from 2%nat (@nil Scheduler.phase) Scheduler.Naming
               [Scheduler.Mkdir; Scheduler.Mkdir].
    moved_from 2%nat (@nil Scheduler.phase) Scheduler.Mkdir
               [Scheduler.Mkdir; Scheduler.Mkdir].
    apply Scheduler.reach_initial.
  - lia.
  - reflexivity.
  - exists Scheduler.Waiting. split; [simpl; auto | discriminate].
Defined.

(** X13. With [max_workers = 0] the interleaved run reaches, whatever
    the number of files, the state where every task waits for a permit,
    and from there no task can move: no copy is ever attempted. *)
Theorem zero_permits_deadlock (retries : Z) (delay : float)
    (skip_locked : bool) (files : nat) :
  let stuck := Scheduler.mkState 0 (repeat Scheduler.Waiting files) in
  Scheduler.reachable retries delay skip_locked 0 files stuck
  /\ (forall s' : Scheduler.state,
        ~ Scheduler.step retries delay skip_locked stuck s')
  /\ forall s : Scheduler.state,
       Scheduler.reachable retries delay skip_locked 0 files s ->
       Scheduler.copying (Scheduler.tasks s) = 0%nat.
Proof.
  intros stuck. split; [|split].
  - pose proof (all_waiting_reachable retries delay skip_locked files files
                  (le_n _)) as H.
    rewrite Nat.sub_diag, app_nil_r in H. exact H.
  - intros s' Hs. unfold stuck in Hs.
    inversion Hs as [n n' before after ph ph' Ht]. subst.
    match goal with Hl : _ ++ _ :: _ = repeat _ _ |- _ =>
      assert (Hin : In ph (repeat Scheduler.Waiting files))
        by (rewrite <- Hl; apply in_elt) end.
    apply repeat_spec in Hin. subst ph. inversion Ht.
  - intros s Hs. apply reachable_permits in Hs as [Hsum _]. lia.
Qed.

(** X14. In every state of the interleaved run, a task inside
    [async with sem] has an attempt counter from 0 to [max(retries, 0)]
    (from 1 to [retries] while it sleeps) and a delay that is not
    negative, and a task that has returned holds one of the three
    outcomes. *)
Theorem scheduler_keeps_tasks_ok (retries : Z) (delay : float)
    (skip_locked : bool) (max_workers files : nat) (s : Scheduler.state) :
  Scheduler.reachable retries delay skip_locked max_workers files s ->
  forall ph : Scheduler.phase,
    In ph (Scheduler.tasks s) -> phase_ok retries ph.
Proof.
  intros Hr. apply Forall_forall.
  exact (reachable_ok retries delay skip_locked max_workers files s Hr).
Qed.

Lemma scheduler_keeps_tasks_ok_witness :
  phase_ok 3 (Scheduler.Copying 0 (py_max 0 0.5)).
Proof.
  apply (scheduler_keeps_tasks_ok 3 0.5%float false 1 1
           (Scheduler.mkState 0 [Scheduler.Copying 0 (py_max 0 0.5)])).
  - moved_from 1%nat (@nil Scheduler.phase) Scheduler.Waiting
               (@nil Scheduler.phase).
    moved_from 1%nat (@nil Scheduler.phase) Scheduler.Naming
               (@nil Scheduler.phase).
    moved_from 1%nat (@nil Scheduler.phase) Scheduler.Mkdir
               (@nil Scheduler.phase).
    apply Scheduler.reach_initial.
  - now left.
Defined.

(** ** The folder names *)

Section Folders.
Import Str StrFacts.
Local Open Scope string_scope.

Lemma lower_ascii_idem (a : ascii) : lower_ascii (lower_ascii a) = lower_ascii a.
Proof. destruct a as [[] [] [] [] [] [] [] []]; reflexivity. Qed.

Lemma lower_idem (s : string) : lower (lower s) = lower s.
Proof.
  induction s as [|a s IH]; simpl; [reflexivity|].
  now rewrite lower_ascii_idem, IH.
Qed.

Lemma length_lower (s : string) : String.length (lower s) = String.length s.
Proof. induction s as [|a s IH]; simpl; [reflexivity | now rewrite IH]. Qed.

Lemma rfind_from_lower (s : string) (pos : Z) :
  rfind_from "." (lower s) pos = rfind_from "." s pos.
Proof.
  revert pos. induction s as [|a s IH]; intros pos; simpl; [reflexivity|].
  now rewrite IH, lower_ascii_dot.
Qed.

Lemma substring_lower (s : string) (n m : nat) :
  substring n m (lower s) = lower (substring n m s).
Proof.
  revert n m. induction s as [|a s IH]; intros n m; simpl.
  - now destruct n, m.
  - destruct n as [|n]; [destruct m as [|m]|]; simpl; try reflexivity.
    + now rewrite IH.
    + apply IH.
Qed.

Lemma lstrip_lower_dot (s : string) :
  lstrip "." (lower s) = lower (lstrip "." s).
Proof.
  induction s as [|a s IH]; simpl; [reflexivity|].
  rewrite lower_ascii_dot. now destruct (Ascii.eqb a ".").
Qed.

(** The lower-cased suffix is read off the lower-cased name. *)
Lemma lower_suffix (p : Path) :
  lower (suffix p) = suffix (mkPath "" [lower (name p)]).
Proof.
  unfold suffix. rewrite name_single. unfold rfind, len, slice_from.
  rewrite rfind_from_lower, length_lower.
  destruct (_ && _); [|reflexivity].
  now rewrite substring_lower.
Qed.

Lemma ext_folder_name_lacks_dot (p : Path) :
  lacks "." (ext_folder_name p) = true.
Proof.
  destruct (last_dot (name p)) as [Hno|(pre & post & Hn & Hp)].
  - unfold ext_folder_name. now rewrite (suffix_no_dot p Hno).
  - pose proof (suffix_split p pre post Hn Hp) as Hs.
    destruct (String.eqb pre "" || String.eqb post "") eqn:E.
    + unfold ext_folder_name. now rewrite Hs.
    + rewrite (ext_of_suffix p post Hp Hs).
      apply orb_false_iff in E as [_ ->]. now rewrite lacks_lower.
Qed.

End Folders.

(** X15. Sorting ignores the letter case of names: two files whose names
    differ only in case go to the same folder, and the folder name is
    itself in lower case. *)
Theorem classification_ignores_case (p q : Path) :
  Str.lower (name p) = Str.lower (name q) ->
  ext_folder_name p = ext_folder_name q
  /\ Str.lower (ext_folder_name p) = ext_folder_name p.
Proof.
  intros H. split.
  - unfold ext_folder_name. now rewrite !lower_suffix, H.
  - unfold ext_folder_name.
    destruct (String.eqb _ "") eqn:E; [reflexivity|].
    now rewrite <- lstrip_lower_dot, lower_idem.
Qed.

Lemma classification_ignores_case_witness :
  ext_folder_name (Path_of_string "/src/b.TXT")
  = ext_folder_name (Path_of_string "/old/B.txt").
Proof.
  exact (proj1 (classification_ignores_case (Path_of_string "/src/b.TXT")
                  (Path_of_string "/old/B.txt") eq_refl)).
Defined.

(** X16. The folder name is always usable as one folder: it is never
    empty, never ["."], holds no dot at all and, when the file name holds
    no separator, no separator either; so [out_root / folder] is right
    inside [out_root]. *)
Theorem folder_name_well_formed (src out_root : Path) :
  ext_folder_name src <> ""%string
  /\ keep_part (ext_folder_name src) = true
  /\ Str.lacks "." (ext_folder_name src) = true
  /\ (Str.lacks "/" (name src) = true ->
      Str.lacks "/" (ext_folder_name src) = true
      /\ child_of out_root (joinpath out_root (ext_folder_name src))).
Proof.
  assert (Hk : keep_part (ext_folder_name src) = true).
  { unfold ext_folder_name.
    destruct (String.eqb _ "") eqn:E; [reflexivity|].
    now apply lstrip_keep_part. }
  split; [|split; [exact Hk|split]].
  - intros E. rewrite E in Hk. discriminate Hk.
  - apply ext_folder_name_lacks_dot.
  - intros Hn. destruct (ext_folder_name_component src Hn) as [H1 H2].
    split; [exact H1 | now apply joinpath_child].
Qed.

Lemma folder_name_well_formed_witness :
  child_of (Path_of_string "/out")
           (joinpath (Path_of_string "/out")
                     (ext_folder_name (Path_of_string "/src/.hidden.Tar.GZ"))).
Proof.
  exact (proj2 (proj2 (proj2 (proj2 (folder_name_well_formed
           (Path_of_string "/src/.hidden.Tar.GZ") (Path_of_string "/out"))))
           eq_refl)).
Defined.

(** ** The locked count *)

Section LockedCount.

Variables (out_root : Path) (retries : Z) (delay : float).

Lemma copy_file_not_locked (fuel : nat) (src : Path) (sem : Z) (w : World)
    (r : outcome) (w' : World) :
  copy_file fuel src out_root sem retries delay false w = Done (r, w') ->
  r <> SkippedLocked.
Proof.
  unfold copy_file, _mkdir_async.
  destruct (faults w (clock w)) as [exc|]; [now intros [= <- _]|].
  unfold to_thread_unique_target_path. simpl.
  destruct (faults w (S (clock w))) as [exc|]; [now intros [= <- _]|].
  destruct (_unique_target_path _ _ _ _) as [target|]; [|discriminate].
  destruct (sem <=? 0)%Z; [discriminate|].
  unfold copy_with_retries. intros H ->.
  apply loop_locked in H as [Hs _]. discriminate Hs.
Qed.

Lemma gather_not_locked (fuel : nat) (sem : Z) (files : list Path) :
  forall (w : World) (results : list outcome) (w' : World),
    gather fuel files out_root sem retries delay false w = Done (results, w') ->
    count_locked results = 0%nat.
Proof.
  induction files as [|f files IH]; intros w results w'; simpl.
  - now intros [= <- _].
  - destruct (copy_file _ f _ _ _ _ _ w) as [[r w1]| |] eqn:Hf; try discriminate.
    destruct (gather _ files _ _ _ _ _ w1) as [[rs w2]| |] eqn:Hg;
      try discriminate.
    intros [= <- _]. apply IH in Hg.
    pose proof (copy_file_not_locked _ _ _ _ _ _ Hf) as Hn.
    apply copy_file_done in Hf as ([->|[->| ->]] & _).
    + exact Hg.
    + now elim Hn.
    + exact Hg.
Qed.

End LockedCount.

(** X17. Without [--skip-locked] the summary never counts a locked file:
    every file yielded is counted as a success or as a failure. *)
Theorem no_skip_no_locked_count (Path_match : Path -> string -> result bool)
    (fuel : nat) (src_root out_root : Path) (max_workers retries : Z)
    (delay : float) (excludes : list string) (w : World) (s : summary)
    (w' : World) :
  read_folder Path_match fuel src_root out_root max_workers retries delay
              false excludes w = Done (Ok (Some s), w') ->
  locked s = 0%nat
  /\ exists (files : list Path) (w1 : World),
       iter_files_recursive Path_match src_root excludes
         (set_fs (add_dirs out_root (fs w)) (tick (emit (EvMkdir out_root) w)))
       = (Ok files, w1)
       /\ (ok s + failed s = List.length files)%nat.
Proof.
  unfold read_folder, _mkdir_async.
  destruct (negb (exists_ (fs w) src_root) || negb (is_dir (fs w) src_root));
    [discriminate|].
  destruct (faults w (clock w)) as [exc|]; [discriminate|].
  destruct (max_workers <? 0)%Z; [discriminate|].
  destruct (iter_files_recursive _ _ _ _) as [[[|f files]|exc] w1];
    try discriminate.
  destruct (gather _ _ _ _ _ _ _ _) as [[results w2]|wb|] eqn:Hg;
    try discriminate.
  intros [= <- _]. simpl.
  pose proof (gather_not_locked _ _ _ _ _ _ _ _ _ Hg) as Hl.
  apply gather_done in Hg as (Hall & _).
  apply counts_partition in Hall.
  split; [exact Hl|]. exists (f :: files), w1. split; [reflexivity|]. lia.
Qed.

(** A locked file, and no flag: it is retried, then counted as failed. *)
Lemma no_skip_no_locked_count_witness :
  let exc := mkExn PermissionError "[WinError 32] file in use" in
  let w := mkWorld example_fs
             (fun k => if (8 <=? k)%nat && (k <=? 9)%nat then Some exc else None)
             0 [] in
  exists (s : summary) (w' : World),
    read_folder PurePath_match 4 (Path_of_string "/src") (Path_of_string "/out")
                4 1 0.5%float false ["skip/*"] w = Done (Ok (Some s), w')
    /\ locked s = 0%nat /\ ok s = 2%nat /\ failed s = 1%nat.
Proof.
  intros exc w.
  destruct (read_folder PurePath_match 4 (Path_of_string "/src")
                        (Path_of_string "/out") 4 1 0.5%float false ["skip/*"] w)
    as [[[[s|]|e] w']| |] eqn:E; try (vm_compute in E; discriminate E).
  exists s, w'. split; [reflexivity|].
  split; [exact (proj1 (no_skip_no_locked_count _ _ _ _ _ _ _ _ _ _ _ E))|].
  vm_compute in E. injection E as <- _. split; reflexivity.
Defined.
